(** * Verification of the point-app frontend helpers

    A shallow embedding of three small TypeScript modules of the
    frontend, and the properties of them that its specification states:

    - the navigation guard [safeNavigate] with its two wrappers
      (module [Navigation]);
    - the security-header [middleware] and its route [matcher]
      (module [Middleware]);
    - the inert text-to-speech shim (module [Tts]);
    - the development-server launcher script (module [Launcher]).

    JavaScript values, exceptions and the effect monad shared by the
    embeddings come first (modules [Js] and [Eff]). *)

From Stdlib Require Import ZArith Floats Ascii.
From stdpp Require Import base strings gmap list pretty.

(** ** JavaScript values *)

Module Js.

(** The values a global of type [any] may hold, as far as a
    conditional can tell them apart. *)
Inductive value : Type :=
| VUndefined
| VNull
| VBool (b : bool)
| VNumber (n : float)
| VString (s : string)
| VObject.

(** ECMAScript ToBoolean: [undefined], [null], [false], [+0], [-0],
    [NaN] and the empty string are falsy, everything else is truthy. *)
Definition truthy (v : value) : bool :=
  match v with
  | VUndefined => false
  | VNull => false
  | VBool b => b
  | VNumber n => negb (PrimFloat.is_nan n || PrimFloat.is_zero n)
  | VString s => negb (String.eqb s "")
  | VObject => true
  end.

(** A thrown value: an error object with its name and message. *)
Record exn : Type := Error { error_name : string; error_message : string }.

End Js.

(** ** Effects: a trace of calls that leave the function, and exceptions *)

Module Eff.

(** How a statement list completes: it returns a value or it throws. *)
Inductive completion (A : Type) : Type :=
| Return (a : A)
| Throw (e : Js.exn).
Arguments Return {A} a.
Arguments Throw {A} e.

Section Monad.
(** [E] is the type of the observable events. *)
Context {E : Type}.

(** A computation yields the events it performed, in order, and its
    completion. *)
Definition t (A : Type) : Type := (list E * completion A)%type.

Definition ret {A} (a : A) : t A := ([], Return a).

Definition bind {A B} (m : t A) (k : A -> t B) : t B :=
  match m with
  | (tr, Return a) => let '(tr', c) := k a in (tr ++ tr', c)
  | (tr, Throw e) => (tr, Throw e)
  end.

(** [try { body } catch (error) { handler error }]. *)
Definition try_catch {A} (body : t A) (handler : Js.exn -> t A) : t A :=
  match body with
  | (tr, Return a) => (tr, Return a)
  | (tr, Throw e) => let '(tr', c) := handler e in (tr ++ tr', c)
  end.

(** An effect that cannot fail, such as a console write. *)
Definition emit (ev : E) : t unit := ([ev], Return tt).

(** A call into foreign code: the call is observed, then it returns
    normally ([None]) or throws ([Some e]). *)
Definition call (ev : E) (outcome : option Js.exn) : t unit :=
  ([ev], match outcome with
         | None => Return tt
         | Some e => Throw e
         end).

Definition trace {A} (m : t A) : list E := fst m.
Definition result {A} (m : t A) : completion A := snd m.
End Monad.

Arguments t : clear implicits.

Declare Scope eff_scope.
Delimit Scope eff_scope with eff.
Notation "m ;; k" := (bind m (fun _ => k))
  (at level 100, k at level 200, right associativity) : eff_scope.

End Eff.

(** ** The navigation guard *)

Module Navigation.
Import Eff.

(** The third argument of the router's [replace]. *)
Record TransitionOptions : Type := { shallow : bool }.

(** What the guard does to the world outside it. *)
Inductive event : Type :=
| ConsoleLog (message : string)
| ConsoleWarn (message : string) (error : Js.exn)
| RouterReplace (url : string) (as_ : option string) (options : TransitionOptions)
| RouterPush (url : string)
| LocationAssign (url : string).

(** The client router handle: an object exposing [replace] and [push].
    Each field says how the call completes for its arguments. *)
Record Router : Type := {
  replace : string -> option string -> TransitionOptions -> option Js.exn;
  push : string -> option Js.exn
}.

(** [window.location]: the current path, and how [assign] completes. *)
Record Location : Type := {
  pathname : string;
  assign : string -> option Js.exn
}.

(** The [window] object with the two globals the guard reads.
    [__NEXT_ROUTER] is [None] when the global holds a falsy value. *)
Record Window : Type := {
  location : Location;
  __NEXT_ROUTER_PRESENT : Js.value;
  __NEXT_ROUTER : option Router
}.

(** The global scope: [None] when [typeof window === 'undefined']. *)
Definition Global : Type := option Window.

Local Open Scope eff_scope.

(** The fallback of [safeNavigate]: the [try]/[catch] around
    [window.location.assign]. *)
Definition fallback (window : Window) (targetPath : string) : Eff.t event bool :=
  try_catch
    (call (LocationAssign targetPath) (assign (location window) targetPath) ;;
     ret true)
    (fun error =>
       emit (ConsoleWarn "Navigation fallback failed:" error) ;;
       ret false).

(** The guard. Its branches follow the source in order; the second test of
    [typeof window] in the source holds whenever it is reached, because
    the first line has returned otherwise. *)
Definition safeNavigate (global : Global) (targetPath : string) (useReplace : bool)
  : Eff.t event bool :=
  match global with
  | None => ret false
  | Some window =>
      if String.eqb (pathname (location window)) targetPath then
        emit (ConsoleLog ("🚫 Same URL navigation skipped: " +:+ targetPath)) ;;
        ret false
      else if Js.truthy (__NEXT_ROUTER_PRESENT window) then
        match __NEXT_ROUTER window with
        | Some router =>
            (if useReplace then
               call (RouterReplace targetPath None {| shallow := true |})
                    (replace router targetPath None {| shallow := true |})
             else
               call (RouterPush targetPath) (push router targetPath)) ;;
            ret true
        | None => fallback window targetPath
        end
      else fallback window targetPath
  end.

(** [safeNavigate(targetPath)]: the second parameter defaults to [true]. *)
Definition safeNavigate_default (global : Global) (targetPath : string)
  : Eff.t event bool :=
  safeNavigate global targetPath true.

Definition navigateToHome (global : Global) : Eff.t event bool :=
  safeNavigate global "/" true.

Definition navigateToTerminal (global : Global) : Eff.t event bool :=
  safeNavigate global "/terminal-simple" true.

(** *** Reading a trace *)

Definition is_router_call (ev : event) : bool :=
  match ev with
  | RouterReplace _ _ _ | RouterPush _ => true
  | _ => false
  end.

Definition is_replace_call (ev : event) : bool :=
  match ev with
  | RouterReplace _ _ _ => true
  | _ => false
  end.

Definition is_push_call (ev : event) : bool :=
  match ev with
  | RouterPush _ => true
  | _ => false
  end.

Definition is_location_write (ev : event) : bool :=
  match ev with
  | LocationAssign _ => true
  | _ => false
  end.

(** Number of events of a trace that satisfy [p]. *)
Definition count (p : event -> bool) (tr : list event) : nat :=
  length (List.filter p tr).

(** *** Reading an environment *)

(** The outcome of the router operation that [useReplace] selects, when
    it is called on [targetPath] with the arguments the guard passes. *)
Definition router_outcome (router : Router) (targetPath : string)
    (useReplace : bool) : option Js.exn :=
  if useReplace then replace router targetPath None {| shallow := true |}
  else push router targetPath.

(** The event by which that operation shows in the trace. *)
Definition router_event (targetPath : string) (useReplace : bool) : event :=
  if useReplace then RouterReplace targetPath None {| shallow := true |}
  else RouterPush targetPath.

(** In [global], the guard reaches the router with [targetPath], and the
    operation it selects throws [e]. *)
Definition router_throws (global : Global) (targetPath : string)
    (useReplace : bool) (e : Js.exn) : Prop :=
  exists window router,
    global = Some window /\
    targetPath <> pathname (location window) /\
    Js.truthy (__NEXT_ROUTER_PRESENT window) = true /\
    __NEXT_ROUTER window = Some router /\
    router_outcome router targetPath useReplace = Some e.

(** *** Sample environments *)

Definition TypeError : Js.exn :=
  Js.Error "TypeError" "Cannot read properties of undefined".

Definition SecurityError : Js.exn :=
  Js.Error "SecurityError" "The operation is insecure.".

Definition quiet_router : Router :=
  {| replace := fun _ _ _ => None; push := fun _ => None |}.

(** A router whose [replace] and [push] both throw. *)
Definition throwing_router : Router :=
  {| replace := fun _ _ _ => Some TypeError; push := fun _ => Some TypeError |}.

Definition location_at (path : string) : Location :=
  {| pathname := path; assign := fun _ => None |}.

(** A location whose [assign] refuses every URL. *)
Definition locked_location_at (path : string) : Location :=
  {| pathname := path; assign := fun _ => Some SecurityError |}.

Definition window_with (loc : Location) (flag : Js.value) (router : option Router)
  : Window :=
  {| location := loc; __NEXT_ROUTER_PRESENT := flag; __NEXT_ROUTER := router |}.

End Navigation.

(** ** The security-header middleware *)

Module Middleware.

(** *** Header lists

    A [Headers] object keeps one value per name and compares names
    without regard to case: names are stored in lower case. *)

Definition lower_ascii (c : ascii) : ascii :=
  let n := Ascii.N_of_ascii c in
  if ((65 <=? n) && (n <=? 90))%N then Ascii.ascii_of_N (n + 32) else c.

Fixpoint lower (s : string) : string :=
  match s with
  | EmptyString => EmptyString
  | String c rest => String (lower_ascii c) (lower rest)
  end.

Definition headers_set (name value : string) (h : gmap string string)
  : gmap string string :=
  <[lower name := value]> h.

Definition headers_get (name : string) (h : gmap string string) : option string :=
  h !! lower name.

Record Response : Type := {
  status : nat;
  headers : gmap string string
}.

Definition set_header (name value : string) (r : Response) : Response :=
  {| status := status r; headers := headers_set name value (headers r) |}.

Record NextRequest : Type := { nextUrl_pathname : string }.

(** [process.env]: [NODE_ENV] is [None] when the variable is unset. *)
Record ProcessEnv : Type := { NODE_ENV : option string }.

Definition is_development (env : ProcessEnv) : bool :=
  match NODE_ENV env with
  | Some v => String.eqb v "development"
  | None => false
  end.

(** [next] is the response that [NextResponse.next()] builds; the
    framework owns it, so it is a parameter here. *)
Definition middleware (next : Response) (env : ProcessEnv) (request : NextRequest)
  : Response :=
  let pathname := nextUrl_pathname request in
  if is_development env then next
  else
    let response := next in
    let response := set_header "X-Frame-Options" "SAMEORIGIN" response in
    let response := set_header "X-Content-Type-Options" "nosniff" response in
    response.

(** *** JavaScript strings

    A JavaScript string is a sequence of UTF-16 code units, and a regular
    expression without the [u] flag works on code units. [utf16] gives the
    code units of a text written in UTF-8, as the literals of this file
    are: a code point of the basic plane is one unit, any other a
    surrogate pair, a byte that begins no sequence the replacement
    character. *)

Definition code_unit : Type := N.

(** The first byte of a sequence: the units it yields at once, the bits it
    contributes, and the number of continuation bytes it announces. *)
Definition utf8_lead (b : N) : list code_unit * N * nat :=
  (if b <? 128 then ([b], 0, 0%nat)
   else if (194 <=? b) && (b <=? 223) then ([], N.land b 31, 1%nat)
   else if (224 <=? b) && (b <=? 239) then ([], N.land b 15, 2%nat)
   else if (240 <=? b) && (b <=? 244) then ([], N.land b 7, 3%nat)
   else ([65533], 0, 0%nat))%N.

Definition utf16_of_code_point (cp : N) : list code_unit :=
  (if cp <? 65536 then [cp]
   else [55296 + N.shiftr (cp - 65536) 10; 56320 + N.land (cp - 65536) 1023])%N.

Fixpoint utf16_from (bits : N) (pending : nat) (s : string) : list code_unit :=
  match s with
  | EmptyString =>
      match pending with
      | O => []
      | S _ => [65533%N]
      end
  | String c rest =>
      let b := Ascii.N_of_ascii c in
      match pending with
      | O =>
          let '(out, bits', pending') := utf8_lead b in
          out ++ utf16_from bits' pending' rest
      | S k =>
          if ((128 <=? b) && (b <=? 191))%N then
            let bits' := N.lor (N.shiftl bits 6) (N.land b 63) in
            match k with
            | O => utf16_of_code_point bits' ++ utf16_from 0 0 rest
            | S _ => utf16_from bits' k rest
            end
          else
            let '(out, bits', pending') := utf8_lead b in
            65533%N :: out ++ utf16_from bits' pending' rest
      end
  end.

Definition utf16 (s : string) : list code_unit := utf16_from 0 0 s.

(** The line terminators of ECMAScript: LF, CR, LS and PS. *)
Definition is_line_terminator (u : code_unit) : bool :=
  ((u =? 10) || (u =? 13) || (u =? 8232) || (u =? 8233))%N.

Definition dot : code_unit := 46%N.
Definition slash : code_unit := 47%N.

(** *** The matcher

    [config.matcher] holds a single pattern, matched against a whole
    path: a slash, then a group made of a negative lookahead over the
    alternatives [_next/static], [_next/image], [favicon.ico] and
    [public], followed by a dot under a star. A dot stands for any one
    code unit that is no line terminator, in an alternative as under the
    star. So the pattern accepts a slash followed by anything that holds
    no line terminator and does not begin with a match of one of the four
    alternatives. *)

Definition lookahead_alternatives : list (list code_unit) :=
  List.map utf16 ["_next/static"; "_next/image"; "favicon.ico"; "public"].

(** One pattern character against one code unit. *)
Definition atom_matches (p c : code_unit) : bool :=
  if (p =? dot)%N then negb (is_line_terminator c) else (p =? c)%N.

(** [begins_with pat s]: [s] begins with a match of [pat]. *)
Fixpoint begins_with (pat s : list code_unit) : bool :=
  match pat with
  | [] => true
  | p :: pat' =>
      match s with
      | [] => false
      | c :: s' => atom_matches p c && begins_with pat' s'
      end
  end.

Definition matcher (path : list code_unit) : bool :=
  match path with
  | c :: rest =>
      (c =? slash)%N &&
      negb (existsb (fun alt => begins_with alt rest) lookahead_alternatives) &&
      forallb (fun u => negb (is_line_terminator u)) rest
  | [] => false
  end.

(** *** The matched paths in the words of the specification

    The specification describes the matched paths as all paths except
    static assets and the favicon. A static asset is read here as a path
    inside one of the directories the pattern names, the favicon as the
    one path [/favicon.ico]. *)

Fixpoint starts_with (literal s : list code_unit) : bool :=
  match literal with
  | [] => true
  | p :: literal' =>
      match s with
      | [] => false
      | c :: s' => (p =? c)%N && starts_with literal' s'
      end
  end.

Definition inside (directory rest : list code_unit) : bool :=
  starts_with (directory ++ [slash]) (rest ++ [slash]).

Definition is_static_asset (rest : list code_unit) : bool :=
  existsb (fun directory => inside (utf16 directory) rest)
          ["_next/static"; "_next/image"; "public"].

Definition is_favicon (rest : list code_unit) : bool :=
  starts_with (utf16 "favicon.ico") rest &&
  (length rest =? length (utf16 "favicon.ico"))%nat.

Definition matcher_as_specified (path : list code_unit) : bool :=
  match path with
  | c :: rest => (c =? slash)%N && negb (is_static_asset rest || is_favicon rest)
  | [] => false
  end.

(** *** Sample values *)

Definition sample_next : Response :=
  {| status := 200; headers := {[ "x-middleware-next" := "1" ]} |}.

Definition production : ProcessEnv := {| NODE_ENV := Some "production" |}.
Definition development : ProcessEnv := {| NODE_ENV := Some "development" |}.

End Middleware.

(** ** The text-to-speech shim *)

Module Tts.

(** A reference to a heap object; two references are the same object
    exactly when they are equal. *)
Definition ref : Type := nat.

Inductive Priority : Type := high | medium | low.

(** The state of an [async] function's promise when it is returned. *)
Inductive promise (A : Type) : Type :=
| Fulfilled (a : A)
| Rejected (e : Js.exn).
Arguments Fulfilled {A} a.
Arguments Rejected {A} e.

Section World.
(** [Outside] is the state of everything the module does not own:
    the speech queue of the browser, the document, the console. *)
Context {Outside : Type}.

Record World : Type := {
  outside : Outside;
  (** number of [VoiceFeedback] objects constructed so far *)
  allocated : nat;
  (** the private static field [VoiceFeedback.instance] *)
  VoiceFeedback_instance : option ref
}.

(** A function of the module: it reads and writes the world and
    returns a value. *)
Definition St (A : Type) : Type := World -> A * World.

Definition speak (_text : string) : St (promise unit) :=
  fun w => (Fulfilled tt, w).

Definition stopSpeak : St unit :=
  fun w => (tt, w).

Definition isTTSEnabled : St bool :=
  fun w => (false, w).

(** [new VoiceFeedback()]: the class has no fields and no constructor
    body, so construction only takes a fresh reference. *)
Definition new_VoiceFeedback : St ref :=
  fun w =>
    (allocated w,
     {| outside := outside w;
        allocated := S (allocated w);
        VoiceFeedback_instance := VoiceFeedback_instance w |}).

Definition set_instance (r : ref) : St unit :=
  fun w =>
    (tt,
     {| outside := outside w;
        allocated := allocated w;
        VoiceFeedback_instance := Some r |}).

Definition getInstance : St ref :=
  fun w =>
    match VoiceFeedback_instance w with
    | Some r => (r, w)
    | None =>
        let '(r, w1) := new_VoiceFeedback w in
        let '(_, w2) := set_instance r w1 in
        (r, w2)
    end.

Definition setEnabled (self : ref) (_enabled : bool) : St unit :=
  fun w => (tt, w).
Definition setVolume (self : ref) (_volume : float) : St unit :=
  fun w => (tt, w).
Definition setRate (self : ref) (_rate : float) : St unit :=
  fun w => (tt, w).
Definition VoiceFeedback_speak (self : ref) (_text : string)
    (_priority : option Priority) : St unit :=
  fun w => (tt, w).
Definition safeSpeak (self : ref) (_text : string)
    (_priority : option Priority) : St unit :=
  fun w => (tt, w).
Definition stop (self : ref) : St unit :=
  fun w => (tt, w).
Definition announceAmount (self : ref) (_amount : float) : St unit :=
  fun w => (tt, w).
Definition announcePaymentStart (self : ref) : St unit :=
  fun w => (tt, w).
Definition announcePaymentComplete (self : ref) : St unit :=
  fun w => (tt, w).
Definition announceError (self : ref) (_error : string) : St unit :=
  fun w => (tt, w).
Definition announceStep (self : ref) (_step : string) : St unit :=
  fun w => (tt, w).

(** A call of one of the instance methods, with its arguments. *)
Inductive method : Type :=
| SetEnabled (enabled : bool)
| SetVolume (volume : float)
| SetRate (rate : float)
| Speak (text : string) (priority : option Priority)
| SafeSpeak (text : string) (priority : option Priority)
| Stop
| AnnounceAmount (amount : float)
| AnnouncePaymentStart
| AnnouncePaymentComplete
| AnnounceError (error : string)
| AnnounceStep (step : string).

Definition invoke (self : ref) (m : method) : St unit :=
  match m with
  | SetEnabled enabled => setEnabled self enabled
  | SetVolume volume => setVolume self volume
  | SetRate rate => setRate self rate
  | Speak text priority => VoiceFeedback_speak self text priority
  | SafeSpeak text priority => safeSpeak self text priority
  | Stop => stop self
  | AnnounceAmount amount => announceAmount self amount
  | AnnouncePaymentStart => announcePaymentStart self
  | AnnouncePaymentComplete => announcePaymentComplete self
  | AnnounceError error => announceError self error
  | AnnounceStep step => announceStep self step
  end.

(** *** Executions: any sequence of calls into the module

    [CallNew] is [new VoiceFeedback()]: the class is exported and its
    constructor is public, so any caller may construct objects of its
    own beside the singleton. *)

Inductive action : Type :=
| CallSpeak (text : string)
| CallStopSpeak
| CallIsTTSEnabled
| CallGetInstance
| CallMethod (self : ref) (m : method)
| CallNew.

(** What a call hands back to its caller: [AInstance] is the answer of
    [getInstance], [AObject] that of the constructor. *)
Inductive answer : Type :=
| APromise (p : promise unit)
| AUnit
| ABool (b : bool)
| AInstance (r : ref)
| AObject (r : ref).

Definition perform (a : action) : St answer :=
  fun w =>
    match a with
    | CallSpeak text => let '(p, w') := speak text w in (APromise p, w')
    | CallStopSpeak => let '(_, w') := stopSpeak w in (AUnit, w')
    | CallIsTTSEnabled => let '(b, w') := isTTSEnabled w in (ABool b, w')
    | CallGetInstance => let '(r, w') := getInstance w in (AInstance r, w')
    | CallMethod self m => let '(_, w') := invoke self m w in (AUnit, w')
    | CallNew => let '(r, w') := new_VoiceFeedback w in (AObject r, w')
    end.

Fixpoint run (prog : list action) : St (list answer) :=
  fun w =>
    match prog with
    | [] => ([], w)
    | a :: rest =>
        let '(x, w1) := perform a w in
        let '(xs, w2) := run rest w1 in
        (x :: xs, w2)
    end.

Definition is_new (a : action) : bool :=
  match a with
  | CallNew => true
  | _ => false
  end.

(** The number of constructor calls of a program. *)
Definition constructions (prog : list action) : nat :=
  length (List.filter is_new prog).

(** The world when the module has just been loaded. *)
Definition initial (o : Outside) : World :=
  {| outside := o; allocated := 0; VoiceFeedback_instance := None |}.
End World.

Arguments World : clear implicits.
Arguments St : clear implicits.

End Tts.

(** ** The development-server launcher *)

Module Launcher.

Inductive signal : Type := SIGINT | SIGTERM.

(** What can reach the launcher once it has spawned the server: a signal
    sent to the launcher, or an event of the child process. The exit code
    of a [close] event is [None] ([null]) when a signal ended the child. *)
Inductive incoming : Type :=
| Signal (s : signal)
| ChildClose (code : option N)
| ChildError (error : Js.exn).

(** The third argument of [spawn]. *)
Record SpawnOptions : Type := {
  stdio : string;
  shell : bool;
  env : gmap string string
}.

(** What the launcher does to the world outside it. [ProcessExit] records
    the argument given to [process.exit]. *)
Inductive effect : Type :=
| ConsoleLog (arguments : list string)
| ConsoleError (message : string) (error : Js.exn)
| Spawn (command : string) (arguments : list string) (options : SpawnOptions)
| ChildKill (s : signal)
| ProcessExit (code : option N).

Definition args : list string :=
  ["dev"; "-p"; "3035"; "--hostname"; "0.0.0.0"].

(** The [env] option: the launcher's own environment spread first, then
    three fixed entries, each replacing an inherited one of the same name. *)
Definition child_env (process_env : gmap string string) : gmap string string :=
  <["FORCE_COLOR" := "1"]>
    (<["NEXT_TELEMETRY_DISABLED" := "1"]>
       (<["NODE_OPTIONS" := "--max_old_space_size=4096"]> process_env)).

(** A template literal renders a number in decimal and [null] as its name. *)
Definition show_code (code : option N) : string :=
  match code with
  | Some n => pretty n
  | None => "null"
  end.

Definition newline : string := String "010"%char EmptyString.

(** The statements of the script body, in order. [project] is
    [path.basename(process.cwd())]. *)
Definition startup (project : string) (process_env : gmap string string)
  : list effect :=
  [ConsoleLog ["🚀 Starting biid Development Server..."];
   ConsoleLog ["📂 Project:"; project];
   Spawn "npx" ("next" :: args)
         {| stdio := "inherit"; shell := true; env := child_env process_env |}].

(** The statements of the four registered listeners. *)
Definition handler (i : incoming) : list effect :=
  match i with
  | Signal SIGINT =>
      [ConsoleLog [newline +:+ "⏹️  Shutting down development server..."];
       ChildKill SIGINT;
       ProcessExit (Some 0%N)]
  | Signal SIGTERM =>
      [ChildKill SIGTERM;
       ProcessExit (Some 0%N)]
  | ChildClose code =>
      [ConsoleLog [newline +:+ "✅ Development server exited with code "
                   +:+ show_code code];
       ProcessExit code]
  | ChildError error =>
      [ConsoleError "❌ Failed to start development server:" error;
       ProcessExit (Some 1%N)]
  end.

(** The launcher process: whether it still runs, and what it has done. *)
Inductive status : Type :=
| Running
| Exited (code : option N).

Record process : Type := {
  state : status;
  log : list effect
}.

(** One statement. [process.exit] ends the process; a process that has
    ended executes nothing. *)
Definition perform (s : process) (e : effect) : process :=
  match state s with
  | Exited _ => s
  | Running =>
      {| state := match e with
                  | ProcessExit code => Exited code
                  | _ => Running
                  end;
         log := log s ++ [e] |}
  end.

Definition execute (s : process) (statements : list effect) : process :=
  fold_left perform statements s.

(** Delivery of one event to the listener registered for it. *)
Definition deliver (s : process) (i : incoming) : process :=
  execute s (handler i).

Definition started (project : string) (process_env : gmap string string) : process :=
  execute {| state := Running; log := [] |} (startup project process_env).

(** The launcher after the events [events] have reached it, in order. *)
Definition run (project : string) (process_env : gmap string string)
    (events : list incoming) : process :=
  fold_left deliver events (started project process_env).

Definition is_spawn (e : effect) : bool :=
  match e with
  | Spawn _ _ _ => true
  | _ => false
  end.

Definition is_kill (e : effect) : bool :=
  match e with
  | ChildKill _ => true
  | _ => false
  end.

Definition is_exit (e : effect) : bool :=
  match e with
  | ProcessExit _ => true
  | _ => false
  end.

(** The argument of [process.exit] that each event leads to. *)
Definition exit_code (i : incoming) : option N :=
  match i with
  | Signal _ => Some 0%N
  | ChildClose code => code
  | ChildError _ => Some 1%N
  end.

End Launcher.

(** * Properties of the navigation guard *)

Module NavigationProofs.
Import Eff Navigation.

(** ** Truthiness of the presence flag *)

Example truthy_samples :
  Js.truthy Js.VUndefined = false /\
  Js.truthy (Js.VNumber 0%float) = false /\
  Js.truthy (Js.VNumber PrimFloat.nan) = false /\
  Js.truthy (Js.VString "") = false /\
  Js.truthy (Js.VNumber 1%float) = true /\
  Js.truthy (Js.VString "false") = true.
Proof.
  split_and!; reflexivity.
Qed.

(** ** Equations of the guard, one per branch *)

Lemma fallback_assign_ok (w : Window) (p : string) :
  assign (location w) p = None ->
  fallback w p = ([LocationAssign p], Return true).
Proof.
  intros Hok. unfold fallback, call. rewrite Hok. reflexivity.
Qed.

Lemma fallback_assign_throws (w : Window) (p : string) (e : Js.exn) :
  assign (location w) p = Some e ->
  fallback w p =
    ([LocationAssign p; ConsoleWarn "Navigation fallback failed:" e],
     Return false).
Proof.
  intros Hko. unfold fallback, call. rewrite Hko. reflexivity.
Qed.

Lemma fallback_returns (w : Window) (p : string) :
  exists b, result (fallback w p) = Return b.
Proof.
  destruct (assign (location w) p) as [e|] eqn:Ha.
  - exists false. rewrite (fallback_assign_throws _ _ _ Ha). reflexivity.
  - exists true. rewrite (fallback_assign_ok _ _ Ha). reflexivity.
Qed.

Lemma fallback_writes_once (w : Window) (p : string) :
  count is_location_write (trace (fallback w p)) = 1 /\
  count is_router_call (trace (fallback w p)) = 0 /\
  In (LocationAssign p) (trace (fallback w p)).
Proof.
  destruct (assign (location w) p) as [e|] eqn:Ha.
  - rewrite (fallback_assign_throws _ _ _ Ha). cbn. auto.
  - rewrite (fallback_assign_ok _ _ Ha). cbn. auto.
Qed.

Lemma eqb_pathname_ne (w : Window) (p : string) :
  p <> pathname (location w) ->
  String.eqb (pathname (location w)) p = false.
Proof.
  intros Hne. apply String.eqb_neq. congruence.
Qed.

Lemma safeNavigate_skip (w : Window) (p : string) (b : bool) :
  p = pathname (location w) ->
  safeNavigate (Some w) p b =
    ([ConsoleLog ("🚫 Same URL navigation skipped: " +:+ p)], Return false).
Proof.
  intros ->. unfold safeNavigate. rewrite String.eqb_refl. reflexivity.
Qed.

Lemma safeNavigate_via_router (w : Window) (router : Router) (p : string) (b : bool) :
  p <> pathname (location w) ->
  Js.truthy (__NEXT_ROUTER_PRESENT w) = true ->
  __NEXT_ROUTER w = Some router ->
  safeNavigate (Some w) p b =
    ([router_event p b],
     match router_outcome router p b with
     | None => Return true
     | Some e => Throw e
     end).
Proof.
  intros Hne Hflag Hrouter. unfold safeNavigate.
  rewrite (eqb_pathname_ne _ _ Hne), Hflag, Hrouter.
  unfold router_event, router_outcome, call.
  destruct b; cbn.
  - destruct (replace router p None _); reflexivity.
  - destruct (push router p); reflexivity.
Qed.

Lemma safeNavigate_via_fallback (w : Window) (p : string) (b : bool) :
  p <> pathname (location w) ->
  Js.truthy (__NEXT_ROUTER_PRESENT w) = false \/ __NEXT_ROUTER w = None ->
  safeNavigate (Some w) p b = fallback w p.
Proof.
  intros Hne Hno. unfold safeNavigate. rewrite (eqb_pathname_ne _ _ Hne).
  destruct (Js.truthy (__NEXT_ROUTER_PRESENT w)) eqn:Hflag; [|reflexivity].
  destruct Hno as [Hno|Hno]; [discriminate|]. rewrite Hno. reflexivity.
Qed.

(** ** The claims *)

(** C1. When the target path equals the current pathname, the guard
    returns [false] for either value of [useReplace], and it navigates
    nowhere: the trace holds no router call and no location write, only
    the console message. *)
Theorem safeNavigate_same_path (w : Window) (targetPath : string) (useReplace : bool) :
  targetPath = pathname (location w) ->
  result (safeNavigate (Some w) targetPath useReplace) = Return false /\
  count is_router_call (trace (safeNavigate (Some w) targetPath useReplace)) = 0 /\
  count is_location_write (trace (safeNavigate (Some w) targetPath useReplace)) = 0 /\
  trace (safeNavigate (Some w) targetPath useReplace) =
    [ConsoleLog ("🚫 Same URL navigation skipped: " +:+ targetPath)].
Proof.
  intros Hsame. rewrite (safeNavigate_skip _ _ _ Hsame). cbn. auto.
Qed.

Lemma safeNavigate_same_path_witness :
  let w := window_with (location_at "/terminal-simple") (Js.VBool true)
                       (Some throwing_router) in
  result (safeNavigate (Some w) "/terminal-simple" false) = Return false /\
  count is_router_call (trace (safeNavigate (Some w) "/terminal-simple" false)) = 0 /\
  count is_location_write (trace (safeNavigate (Some w) "/terminal-simple" false)) = 0 /\
  trace (safeNavigate (Some w) "/terminal-simple" false) =
    [ConsoleLog ("🚫 Same URL navigation skipped: " +:+ "/terminal-simple")].
Proof.
  intros w. apply (safeNavigate_same_path w "/terminal-simple" false). reflexivity.
Defined.

(** C2, as the code has it. When the target path differs from the
    current pathname, the presence flag is truthy and the router handle
    is there, the guard calls the handle exactly once, [replace] when
    [useReplace] is [true] and [push] otherwise, and writes no location.
    It returns [true] when that call returns; when the call throws, the
    exception leaves the guard. *)
Theorem safeNavigate_router_call (w : Window) (router : Router)
    (targetPath : string) (useReplace : bool) :
  targetPath <> pathname (location w) ->
  Js.truthy (__NEXT_ROUTER_PRESENT w) = true ->
  __NEXT_ROUTER w = Some router ->
  trace (safeNavigate (Some w) targetPath useReplace) =
    [if useReplace then RouterReplace targetPath None {| shallow := true |}
     else RouterPush targetPath] /\
  count is_replace_call (trace (safeNavigate (Some w) targetPath useReplace)) =
    (if useReplace then 1 else 0) /\
  count is_push_call (trace (safeNavigate (Some w) targetPath useReplace)) =
    (if useReplace then 0 else 1) /\
  count is_location_write (trace (safeNavigate (Some w) targetPath useReplace)) = 0 /\
  (router_outcome router targetPath useReplace = None ->
   result (safeNavigate (Some w) targetPath useReplace) = Return true) /\
  (forall e, router_outcome router targetPath useReplace = Some e ->
   result (safeNavigate (Some w) targetPath useReplace) = Throw e).
Proof.
  intros Hne Hflag Hrouter.
  rewrite (safeNavigate_via_router _ _ _ _ Hne Hflag Hrouter).
  unfold router_event. cbn [trace result fst snd].
  split_and!.
  - destruct useReplace; reflexivity.
  - destruct useReplace; reflexivity.
  - destruct useReplace; reflexivity.
  - destruct useReplace; reflexivity.
  - intros ->. reflexivity.
  - intros e ->. reflexivity.
Qed.

Lemma safeNavigate_router_call_witness :
  let w := window_with (location_at "/") (Js.VString "yes") (Some quiet_router) in
  trace (safeNavigate (Some w) "/terminal-simple" true) =
    [RouterReplace "/terminal-simple" None {| shallow := true |}] /\
  result (safeNavigate (Some w) "/terminal-simple" true) = Return true /\
  trace (safeNavigate (Some w) "/terminal-simple" false) =
    [RouterPush "/terminal-simple"] /\
  result (safeNavigate (Some w) "/terminal-simple" false) = Return true.
Proof.
  intros w.
  assert (Hne : "/terminal-simple" <> pathname (location w)) by discriminate.
  assert (Hflag : Js.truthy (__NEXT_ROUTER_PRESENT w) = true) by reflexivity.
  assert (Hrouter : __NEXT_ROUTER w = Some quiet_router) by reflexivity.
  destruct (safeNavigate_router_call w quiet_router "/terminal-simple" true
              Hne Hflag Hrouter) as (Ht & _ & _ & _ & Hr & _).
  destruct (safeNavigate_router_call w quiet_router "/terminal-simple" false
              Hne Hflag Hrouter) as (Ht' & _ & _ & _ & Hr' & _).
  split_and!.
  - exact Ht.
  - apply Hr. reflexivity.
  - exact Ht'.
  - apply Hr'. reflexivity.
Defined.

(** C2 as stated fails: with the flag set and a handle whose [replace]
    throws, the target differing from the current path, the guard calls
    [replace] once and then does not return [true]: it throws. *)
Lemma safeNavigate_router_call_counterexample :
  let w := window_with (location_at "/") (Js.VBool true) (Some throwing_router) in
  "/terminal-simple" <> pathname (location w) /\
  __NEXT_ROUTER w = Some throwing_router /\
  Js.truthy (__NEXT_ROUTER_PRESENT w) = true /\
  trace (safeNavigate (Some w) "/terminal-simple" true) =
    [RouterReplace "/terminal-simple" None {| shallow := true |}] /\
  result (safeNavigate (Some w) "/terminal-simple" true) = Throw TypeError /\
  result (safeNavigate (Some w) "/terminal-simple" true) <> Return true.
Proof.
  cbn. split_and!; done.
Qed.

(** C3. When the target path differs from the current pathname and no
    router handle is present (the flag is falsy, or the handle is
    absent), the guard writes the location exactly once, with the target
    path, and calls no router. If the write returns, the guard returns
    [true]. If the write throws, the guard logs one warning that carries
    the exception and returns [false]. In no case does it throw. *)
Theorem safeNavigate_fallback (w : Window) (targetPath : string) (useReplace : bool) :
  targetPath <> pathname (location w) ->
  Js.truthy (__NEXT_ROUTER_PRESENT w) = false \/ __NEXT_ROUTER w = None ->
  count is_location_write (trace (safeNavigate (Some w) targetPath useReplace)) = 1 /\
  In (LocationAssign targetPath) (trace (safeNavigate (Some w) targetPath useReplace)) /\
  count is_router_call (trace (safeNavigate (Some w) targetPath useReplace)) = 0 /\
  (assign (location w) targetPath = None ->
   safeNavigate (Some w) targetPath useReplace =
     ([LocationAssign targetPath], Return true)) /\
  (forall e, assign (location w) targetPath = Some e ->
   safeNavigate (Some w) targetPath useReplace =
     ([LocationAssign targetPath; ConsoleWarn "Navigation fallback failed:" e],
      Return false)) /\
  (forall e, result (safeNavigate (Some w) targetPath useReplace) <> Throw e).
Proof.
  intros Hne Hno. rewrite (safeNavigate_via_fallback _ _ _ Hne Hno).
  destruct (fallback_writes_once w targetPath) as (Hw & Hr & Hin).
  split_and!; try assumption.
  - apply fallback_assign_ok.
  - apply fallback_assign_throws.
  - intros e He. destruct (fallback_returns w targetPath) as [b Hb]. congruence.
Qed.

Lemma safeNavigate_fallback_witness :
  let w := window_with (locked_location_at "/") Js.VUndefined None in
  safeNavigate (Some w) "/terminal-simple" true =
    ([LocationAssign "/terminal-simple";
      ConsoleWarn "Navigation fallback failed:" SecurityError],
     Return false).
Proof.
  intros w.
  assert (Hne : "/terminal-simple" <> pathname (location w)) by discriminate.
  assert (Hno : Js.truthy (__NEXT_ROUTER_PRESENT w) = false \/ __NEXT_ROUTER w = None)
    by (left; reflexivity).
  destruct (safeNavigate_fallback w "/terminal-simple" true Hne Hno)
    as (_ & _ & _ & _ & Hthrows & _).
  apply Hthrows. reflexivity.
Defined.

(** C4, as the code has it. The guard throws in exactly one situation:
    it reached the router (a window exists, the target differs from the
    current path, the flag is truthy, the handle is there) and the
    operation it called threw; the exception it throws is then that one.
    In every other state, whatever [window.location.assign] does, the
    guard returns a boolean. *)
Theorem safeNavigate_throws_only_from_router (global : Global)
    (targetPath : string) (useReplace : bool) :
  (forall e, result (safeNavigate global targetPath useReplace) = Throw e <->
             router_throws global targetPath useReplace e) /\
  ((forall e, ~ router_throws global targetPath useReplace e) ->
   exists b, result (safeNavigate global targetPath useReplace) = Return b).
Proof.
  assert (Hiff : forall e,
    result (safeNavigate global targetPath useReplace) = Throw e <->
    router_throws global targetPath useReplace e).
  { intros e. split.
    - destruct global as [w|]; [|discriminate].
      destruct (String.eqb_spec (pathname (location w)) targetPath) as [Heq|Hne].
      { rewrite (safeNavigate_skip w targetPath useReplace (eq_sym Heq)).
        discriminate. }
      assert (Hne' : targetPath <> pathname (location w)) by congruence.
      destruct (Js.truthy (__NEXT_ROUTER_PRESENT w)) eqn:Hflag.
      + destruct (__NEXT_ROUTER w) as [router|] eqn:Hrouter.
        * rewrite (safeNavigate_via_router _ _ _ _ Hne' Hflag Hrouter).
          cbn [result snd]. intros Hthrow. exists w, router.
          destruct (router_outcome router targetPath useReplace) eqn:Ho;
            [|discriminate].
          split_and!; congruence.
        * rewrite (safeNavigate_via_fallback w targetPath useReplace Hne')
            by (right; assumption).
          destruct (fallback_returns w targetPath) as [b Hb]. congruence.
      + rewrite (safeNavigate_via_fallback w targetPath useReplace Hne')
          by (left; assumption).
        destruct (fallback_returns w targetPath) as [b Hb]. congruence.
    - intros (w & router & -> & Hne & Hflag & Hrouter & Ho).
      rewrite (safeNavigate_via_router _ _ _ _ Hne Hflag Hrouter).
      cbn [result snd]. rewrite Ho. reflexivity. }
  split; [exact Hiff|].
  intros Hquiet.
  destruct (result (safeNavigate global targetPath useReplace)) as [b|e] eqn:Hr.
  - exists b. reflexivity.
  - exfalso. apply (Hquiet e). apply Hiff. reflexivity.
Qed.

Lemma safeNavigate_throws_only_from_router_witness :
  exists b,
    result (safeNavigate
              (Some (window_with (locked_location_at "/") (Js.VBool true)
                                 (Some quiet_router)))
              "/terminal-simple" false) = Return b.
Proof.
  apply (safeNavigate_throws_only_from_router
           (Some (window_with (locked_location_at "/") (Js.VBool true)
                              (Some quiet_router)))
           "/terminal-simple" false).
  intros e (w & router & Hw & _ & _ & Hrouter & Ho).
  injection Hw as <-. cbn in Hrouter. injection Hrouter as <-.
  discriminate Ho.
Defined.

(** C4 as stated fails: with the flag set and a handle whose [push]
    throws, the guard called without replacement history throws that
    exception to its caller and returns no boolean. *)
Lemma safeNavigate_never_throws_counterexample :
  let w := window_with (location_at "/") (Js.VBool true) (Some throwing_router) in
  result (safeNavigate (Some w) "/terminal-simple" false) = Throw TypeError /\
  ~ exists b, result (safeNavigate (Some w) "/terminal-simple" false) = Return b.
Proof.
  cbn. split; [reflexivity|]. intros [b Hb]. discriminate Hb.
Qed.

(** C5. Without a window the guard returns [false] for every target
    path and either value of [useReplace], and does nothing: its trace
    is empty. *)
Theorem safeNavigate_no_window (targetPath : string) (useReplace : bool) :
  result (safeNavigate None targetPath useReplace) = Return false /\
  trace (safeNavigate None targetPath useReplace) = [].
Proof.
  split; reflexivity.
Qed.

(** C6. In every environment [navigateToHome] is [safeNavigate] at
    ["/"] with replacement, and [navigateToTerminal] is [safeNavigate]
    at ["/terminal-simple"] with replacement: same trace, same
    completion. *)
Theorem navigate_wrappers (global : Global) :
  navigateToHome global = safeNavigate global "/" true /\
  navigateToTerminal global = safeNavigate global "/terminal-simple" true.
Proof.
  split; reflexivity.
Qed.

(** C9, as the code has it. When the flag is truthy but the handle is
    absent and the target differs from the current path, the guard does
    exactly what it does when the flag is not set: it runs the fallback,
    writing the location once with the target path and calling no
    router. It returns [true] when the write returns, and [false] only
    when the write throws. *)
Theorem safeNavigate_flag_without_handle (w : Window) (targetPath : string)
    (useReplace : bool) :
  targetPath <> pathname (location w) ->
  Js.truthy (__NEXT_ROUTER_PRESENT w) = true ->
  __NEXT_ROUTER w = None ->
  (forall flag router, Js.truthy flag = false ->
     safeNavigate (Some w) targetPath useReplace =
     safeNavigate (Some (window_with (location w) flag router))
                  targetPath useReplace) /\
  safeNavigate (Some w) targetPath useReplace = fallback w targetPath /\
  count is_location_write (trace (safeNavigate (Some w) targetPath useReplace)) = 1 /\
  In (LocationAssign targetPath) (trace (safeNavigate (Some w) targetPath useReplace)) /\
  count is_router_call (trace (safeNavigate (Some w) targetPath useReplace)) = 0 /\
  (assign (location w) targetPath = None ->
   result (safeNavigate (Some w) targetPath useReplace) = Return true) /\
  (result (safeNavigate (Some w) targetPath useReplace) = Return false ->
   exists e, assign (location w) targetPath = Some e).
Proof.
  intros Hne Hflag Hrouter.
  assert (Hfb : safeNavigate (Some w) targetPath useReplace = fallback w targetPath)
    by (apply safeNavigate_via_fallback; [assumption | right; assumption]).
  destruct (fallback_writes_once w targetPath) as (Hw & Hr & Hin).
  split_and!.
  - intros flag router Hfalsy. rewrite Hfb.
    rewrite (safeNavigate_via_fallback (window_with (location w) flag router)
               targetPath useReplace);
      [reflexivity | exact Hne | left; exact Hfalsy].
  - exact Hfb.
  - rewrite Hfb. exact Hw.
  - rewrite Hfb. exact Hin.
  - rewrite Hfb. exact Hr.
  - intros Hok. rewrite Hfb, (fallback_assign_ok _ _ Hok). reflexivity.
  - rewrite Hfb. destruct (assign (location w) targetPath) as [e|] eqn:Ha.
    + intros _. exists e. reflexivity.
    + rewrite (fallback_assign_ok _ _ Ha). discriminate.
Qed.

Lemma safeNavigate_flag_without_handle_witness :
  let w := window_with (location_at "/") (Js.VBool true) None in
  safeNavigate (Some w) "/terminal-simple" true =
    safeNavigate (Some (window_with (location_at "/") Js.VUndefined None))
                 "/terminal-simple" true /\
  result (safeNavigate (Some w) "/terminal-simple" true) = Return true.
Proof.
  intros w.
  assert (Hne : "/terminal-simple" <> pathname (location w)) by discriminate.
  assert (Hflag : Js.truthy (__NEXT_ROUTER_PRESENT w) = true) by reflexivity.
  assert (Hrouter : __NEXT_ROUTER w = None) by reflexivity.
  destruct (safeNavigate_flag_without_handle w "/terminal-simple" true
              Hne Hflag Hrouter) as (Hsame & _ & _ & _ & _ & Hok & _).
  split.
  - apply (Hsame Js.VUndefined None). reflexivity.
  - apply Hok. reflexivity.
Defined.

(** C9 as stated fails: with the flag set, the handle absent and a
    location whose [assign] throws, the guard does return [false]. *)
Lemma safeNavigate_flag_without_handle_counterexample :
  let w := window_with (locked_location_at "/") (Js.VBool true) None in
  "/terminal-simple" <> pathname (location w) /\
  Js.truthy (__NEXT_ROUTER_PRESENT w) = true /\
  __NEXT_ROUTER w = None /\
  safeNavigate (Some w) "/terminal-simple" true =
    ([LocationAssign "/terminal-simple";
      ConsoleWarn "Navigation fallback failed:" SecurityError],
     Return false).
Proof.
  cbn. split_and!; done.
Qed.

End NavigationProofs.

(** * Properties of the security-header middleware *)

Module MiddlewareProofs.
Import Middleware.

Lemma is_development_true (env : ProcessEnv) :
  NODE_ENV env = Some "development" -> is_development env = true.
Proof.
  unfold is_development. intros ->. reflexivity.
Qed.

Lemma is_development_false (env : ProcessEnv) :
  NODE_ENV env <> Some "development" -> is_development env = false.
Proof.
  unfold is_development. destruct (NODE_ENV env) as [v|]; [|reflexivity].
  intros Hne. apply String.eqb_neq. congruence.
Qed.

(** Setting one header leaves a header of another name as it was. *)
Lemma headers_get_set_ne (name other value : string) (h : gmap string string) :
  lower other <> lower name ->
  headers_get other (headers_set name value h) = headers_get other h.
Proof.
  intros Hne. unfold headers_get, headers_set.
  apply lookup_insert_ne. congruence.
Qed.

Lemma headers_get_set_eq (name value : string) (h : gmap string string) :
  headers_get name (headers_set name value h) = Some value.
Proof.
  unfold headers_get, headers_set. apply lookup_insert_eq.
Qed.

(** Outside development the middleware is two [set] calls on the
    response of [NextResponse.next()]. *)
Lemma middleware_production (next : Response) (env : ProcessEnv) (request : NextRequest) :
  NODE_ENV env <> Some "development" ->
  middleware next env request =
    set_header "X-Content-Type-Options" "nosniff"
      (set_header "X-Frame-Options" "SAMEORIGIN" next).
Proof.
  intros Hne. unfold middleware. rewrite (is_development_false _ Hne). reflexivity.
Qed.

(** *** The matcher *)

Lemma atom_matches_literal (p c : code_unit) :
  p <> dot -> atom_matches p c = (p =? c)%N.
Proof.
  intros Hp. unfold atom_matches.
  destruct (N.eqb_spec p dot); [contradiction | reflexivity].
Qed.

Lemma atom_matches_refl (p : code_unit) : atom_matches p p = true.
Proof.
  unfold atom_matches. destruct (N.eqb_spec p dot) as [->|_].
  - reflexivity.
  - apply N.eqb_refl.
Qed.

(** A pattern matches at the head of itself, and what follows it in the
    pattern is then matched against what follows it in the subject. *)
Lemma begins_with_app (pat pat' s : list code_unit) :
  begins_with (pat ++ pat') (pat ++ s) = begins_with pat' s.
Proof.
  induction pat as [|p pat IH]; [reflexivity|].
  cbn [app begins_with]. rewrite atom_matches_refl, IH. reflexivity.
Qed.

Lemma begins_with_self (pat s : list code_unit) :
  begins_with pat (pat ++ s) = true.
Proof.
  rewrite <- (app_nil_r pat) at 1. apply begins_with_app.
Qed.

(** A pattern without a dot matches only itself. *)
Lemma begins_with_literal_inv (pat pat' s : list code_unit) :
  forallb (fun p => negb (p =? dot)%N) pat = true ->
  begins_with (pat ++ pat') s = true ->
  exists s', s = pat ++ s' /\ begins_with pat' s' = true.
Proof.
  revert s. induction pat as [|p pat IH]; intros s Hlit Hb.
  - exists s. split; [reflexivity | exact Hb].
  - cbn [forallb] in Hlit. apply andb_true_iff in Hlit as [Hp Hlit].
    apply negb_true_iff, N.eqb_neq in Hp.
    destruct s as [|c s]; [discriminate|].
    cbn [app begins_with] in Hb. apply andb_true_iff in Hb as [Hc Hb].
    rewrite (atom_matches_literal p c Hp) in Hc. apply N.eqb_eq in Hc as <-.
    destruct (IH s Hlit Hb) as (s' & -> & Hb').
    exists s'. split; [reflexivity | exact Hb'].
Qed.

Lemma no_line_terminator_iff (s : list code_unit) :
  forallb (fun u => negb (is_line_terminator u)) s = true <->
  forall u, In u s -> is_line_terminator u = false.
Proof.
  rewrite forallb_forall. split; intros H u Hin.
  - apply negb_true_iff, H, Hin.
  - apply negb_true_iff, H, Hin.
Qed.

(** The four alternatives, one by one. *)
Lemma lookahead_none_iff (rest : list code_unit) :
  existsb (fun alt => begins_with alt rest) lookahead_alternatives = false <->
  begins_with (utf16 "_next/static") rest = false /\
  begins_with (utf16 "_next/image") rest = false /\
  begins_with (utf16 "favicon.ico") rest = false /\
  begins_with (utf16 "public") rest = false.
Proof.
  unfold lookahead_alternatives. cbn [List.map existsb].
  rewrite orb_false_r, !orb_false_iff. tauto.
Qed.

Lemma begins_with_literal_iff (pat rest : list code_unit) :
  forallb (fun p => negb (p =? dot)%N) pat = true ->
  begins_with pat rest = false <-> forall tail, rest <> pat ++ tail.
Proof.
  intros Hlit. split.
  - intros Hb tail ->. rewrite begins_with_self in Hb. discriminate.
  - intros Hne. destruct (begins_with pat rest) eqn:Hb; [|reflexivity].
    rewrite <- (app_nil_r pat) in Hb.
    destruct (begins_with_literal_inv pat [] rest Hlit Hb) as (tail & -> & _).
    destruct (Hne tail eq_refl).
Qed.

(** The alternative with the dot: [favicon], one code unit that is no
    line terminator, [ico]. *)
Lemma begins_with_favicon_iff (rest : list code_unit) :
  begins_with (utf16 "favicon.ico") rest = true <->
  exists c tail,
    is_line_terminator c = false /\
    rest = utf16 "favicon" ++ c :: utf16 "ico" ++ tail.
Proof.
  change (utf16 "favicon.ico") with (utf16 "favicon" ++ dot :: utf16 "ico").
  split.
  - intros Hb.
    destruct (begins_with_literal_inv (utf16 "favicon") (dot :: utf16 "ico") rest
                eq_refl Hb) as (s' & -> & Hb').
    destruct s' as [|c s']; [discriminate|].
    cbn [begins_with] in Hb'. apply andb_true_iff in Hb' as [Hc Hb'].
    unfold atom_matches in Hc. rewrite N.eqb_refl in Hc.
    apply negb_true_iff in Hc.
    rewrite <- (app_nil_r (utf16 "ico")) in Hb'.
    destruct (begins_with_literal_inv (utf16 "ico") [] s' eq_refl Hb')
      as (tail & -> & _).
    exists c, tail. split; [exact Hc | reflexivity].
  - intros (c & tail & Hc & ->).
    rewrite begins_with_app. cbn [begins_with].
    unfold atom_matches. rewrite N.eqb_refl, Hc. cbn [negb andb].
    apply begins_with_self.
Qed.

(** The paths the matcher accepts, without reference to the way it
    decides. *)
Lemma matcher_accepts (path : list code_unit) :
  matcher path = true <->
  exists rest,
    path = slash :: rest /\
    (forall u, In u rest -> is_line_terminator u = false) /\
    (forall tail, rest <> utf16 "_next/static" ++ tail) /\
    (forall tail, rest <> utf16 "_next/image" ++ tail) /\
    (forall tail, rest <> utf16 "public" ++ tail) /\
    (forall c tail, rest <> utf16 "favicon" ++ c :: utf16 "ico" ++ tail).
Proof.
  split.
  - destruct path as [|c rest]; [discriminate|]. cbn [matcher].
    intros Hm. apply andb_true_iff in Hm as [Hm Hterm].
    apply andb_true_iff in Hm as [Hc Hlook].
    apply N.eqb_eq in Hc as ->.
    apply negb_true_iff, lookahead_none_iff in Hlook as (Hs & Hi & Hf & Hp).
    pose proof (proj1 (no_line_terminator_iff rest) Hterm) as Hclean.
    clear Hterm. rename Hclean into Hterm.
    exists rest. split_and!; [reflexivity | exact Hterm | | | |].
    + apply begins_with_literal_iff; [reflexivity | exact Hs].
    + apply begins_with_literal_iff; [reflexivity | exact Hi].
    + apply begins_with_literal_iff; [reflexivity | exact Hp].
    + intros c tail Heq.
      assert (begins_with (utf16 "favicon.ico") rest = true) as Hyes; [|congruence].
      apply begins_with_favicon_iff. exists c, tail. split; [|exact Heq].
      apply Hterm. rewrite Heq. apply in_or_app. right. left. reflexivity.
  - intros (rest & -> & Hterm & Hs & Hi & Hp & Hf). cbn [matcher].
    rewrite N.eqb_refl. cbn [andb].
    apply andb_true_iff. split; [|apply no_line_terminator_iff; exact Hterm].
    apply negb_true_iff, lookahead_none_iff. split_and!.
    + apply begins_with_literal_iff; [reflexivity | exact Hs].
    + apply begins_with_literal_iff; [reflexivity | exact Hi].
    + destruct (begins_with (utf16 "favicon.ico") rest) eqn:Hb; [|reflexivity].
      apply begins_with_favicon_iff in Hb as (c & tail & _ & Heq).
      destruct (Hf c tail Heq).
    + apply begins_with_literal_iff; [reflexivity | exact Hp].
Qed.

Example matcher_samples :
  matcher (utf16 "/") = true /\
  matcher (utf16 "/terminal-simple") = true /\
  matcher (utf16 "/logo.png") = true /\
  matcher (utf16 "/_next/static/chunks/main.js") = false /\
  matcher (utf16 "/_next/image") = false /\
  matcher (utf16 "/favicon.ico") = false /\
  matcher (utf16 "/favicon書ico") = false /\
  matcher (utf16 "/public/logo.png") = false /\
  matcher (utf16 "/publications") = false /\
  matcher (utf16 ("/a" +:+ String "010"%char "b")) = false /\
  matcher (utf16 "terminal-simple") = false.
Proof.
  split_and!; reflexivity.
Qed.

(** C7, as the code has it. For every request: in development the
    middleware returns the response of [NextResponse.next()] as it is; in
    any other environment it returns that response with [X-Frame-Options]
    set to [SAMEORIGIN] and [X-Content-Type-Options] set to [nosniff],
    every other header and the status being as before. The paths its
    matcher accepts, for which it runs, are these: a slash, then a rest
    that holds no line terminator and begins with none of [_next/static],
    [_next/image], [public], and [favicon] followed by one character and
    [ico]. *)
Theorem middleware_headers (next : Response) (env : ProcessEnv) (request : NextRequest) :
  (NODE_ENV env = Some "development" ->
   middleware next env request = next) /\
  (NODE_ENV env <> Some "development" ->
   headers_get "X-Frame-Options" (headers (middleware next env request)) =
     Some "SAMEORIGIN" /\
   headers_get "X-Content-Type-Options" (headers (middleware next env request)) =
     Some "nosniff" /\
   (forall name,
      lower name <> "x-frame-options" ->
      lower name <> "x-content-type-options" ->
      headers_get name (headers (middleware next env request)) =
      headers_get name (headers next)) /\
   status (middleware next env request) = status next) /\
  (forall path,
     matcher path = true <->
     exists rest,
       path = slash :: rest /\
       (forall u, In u rest -> is_line_terminator u = false) /\
       (forall tail, rest <> utf16 "_next/static" ++ tail) /\
       (forall tail, rest <> utf16 "_next/image" ++ tail) /\
       (forall tail, rest <> utf16 "public" ++ tail) /\
       (forall c tail, rest <> utf16 "favicon" ++ c :: utf16 "ico" ++ tail)).
Proof.
  split_and!.
  - intros Hdev. unfold middleware. rewrite (is_development_true _ Hdev). reflexivity.
  - intros Hprod. rewrite (middleware_production next env request Hprod).
    cbn [headers status set_header]. split_and!.
    + rewrite headers_get_set_ne by (vm_compute; discriminate).
      apply headers_get_set_eq.
    + apply headers_get_set_eq.
    + intros name Hframe Hcontent.
      rewrite !headers_get_set_ne; [reflexivity | exact Hframe | exact Hcontent].
    + reflexivity.
  - exact matcher_accepts.
Qed.

Lemma middleware_headers_witness :
  middleware sample_next development {| nextUrl_pathname := "/terminal-simple" |} =
    sample_next /\
  headers_get "x-frame-options"
    (headers (middleware sample_next production
                {| nextUrl_pathname := "/terminal-simple" |})) = Some "SAMEORIGIN" /\
  headers_get "X-Middleware-Next"
    (headers (middleware sample_next production
                {| nextUrl_pathname := "/terminal-simple" |})) = Some "1" /\
  matcher (utf16 "/terminal-simple") = true.
Proof.
  destruct (middleware_headers sample_next development
              {| nextUrl_pathname := "/terminal-simple" |}) as (Hdev & _ & _).
  destruct (middleware_headers sample_next production
              {| nextUrl_pathname := "/terminal-simple" |}) as (_ & Hprod & Hmatch).
  destruct Hprod as (Hframe & _ & Hother & _); [discriminate|].
  split_and!.
  - apply Hdev. reflexivity.
  - exact Hframe.
  - rewrite Hother; [reflexivity | vm_compute; discriminate | vm_compute; discriminate].
  - apply (proj2 (Hmatch (utf16 "/terminal-simple"))).
    exists (utf16 "terminal-simple").
    split_and!; [vm_compute; reflexivity | | | | |].
    + intros u Hin. vm_compute in Hin.
      repeat (destruct Hin as [<-|Hin]; [reflexivity|]). destruct Hin.
    + intros tail Heq. vm_compute in Heq. discriminate Heq.
    + intros tail Heq. vm_compute in Heq. discriminate Heq.
    + intros tail Heq. vm_compute in Heq. discriminate Heq.
    + intros c tail Heq. vm_compute in Heq. discriminate Heq.
Defined.

(** C7 as stated fails: the matched paths are not all paths except static
    assets and the favicon. [/publications] and [/public-profile/42] are
    pages, neither a static asset nor the favicon, and the matcher leaves
    them out, because it tests leading characters and [public] is one of
    its alternatives. *)
Lemma middleware_headers_counterexample :
  matcher_as_specified (utf16 "/publications") = true /\
  matcher (utf16 "/publications") = false /\
  matcher_as_specified (utf16 "/public-profile/42") = true /\
  matcher (utf16 "/public-profile/42") = false.
Proof.
  split_and!; reflexivity.
Qed.

End MiddlewareProofs.

(** * Properties of the text-to-speech shim *)

Module TtsProofs.
Import Tts.

Section World.
Context {Outside : Type}.
Implicit Types (w : World Outside) (prog : list action) (r : ref).

(** The calls that can change the world, and all the others. *)
Lemma action_cases (a : action) :
  a = CallGetInstance \/ a = CallNew \/ (a <> CallGetInstance /\ a <> CallNew).
Proof.
  destruct a; auto; right; right; split; discriminate.
Qed.

(** Every call but [getInstance] and the constructor returns the world
    it was given, and no object. *)
Lemma perform_inert (a : action) w :
  a <> CallGetInstance -> a <> CallNew ->
  snd (perform a w) = w /\
  (forall r, fst (perform a w) <> AInstance r) /\
  (forall r, fst (perform a w) <> AObject r).
Proof.
  intros Hget Hnew.
  destruct a as [text| | | |self m|];
    try (split_and!; [reflexivity | discriminate | discriminate]).
  - contradiction.
  - destruct m; split_and!; (reflexivity || discriminate).
  - contradiction.
Qed.

(** The constructor takes the next reference and leaves the static
    field alone. *)
Lemma perform_new w :
  perform CallNew w =
    (AObject (allocated w),
     {| outside := outside w;
        allocated := S (allocated w);
        VoiceFeedback_instance := VoiceFeedback_instance w |}).
Proof.
  reflexivity.
Qed.

(** Once the static field is set, [getInstance] returns it and writes
    nothing. *)
Lemma getInstance_set w r :
  VoiceFeedback_instance w = Some r -> getInstance w = (r, w).
Proof.
  intros Hset. unfold getInstance. rewrite Hset. reflexivity.
Qed.

(** On an unset field, [getInstance] constructs one object and stores
    it in the field. *)
Lemma getInstance_unset w :
  VoiceFeedback_instance w = None ->
  getInstance w =
    (allocated w,
     {| outside := outside w;
        allocated := S (allocated w);
        VoiceFeedback_instance := Some (allocated w) |}).
Proof.
  intros Hunset. unfold getInstance. rewrite Hunset. reflexivity.
Qed.

Lemma run_cons (a : action) prog w :
  fst (run (a :: prog) w) =
    fst (perform a w) :: fst (run prog (snd (perform a w))) /\
  snd (run (a :: prog) w) = snd (run prog (snd (perform a w))).
Proof.
  cbn [run]. destruct (perform a w) as [x w1]. cbn [fst snd].
  destruct (run prog w1) as [xs w2]. split; reflexivity.
Qed.

Lemma constructions_cons (a : action) prog :
  constructions (a :: prog) =
    (if is_new a then S (constructions prog) else constructions prog).
Proof.
  unfold constructions. cbn [List.filter]. destruct (is_new a); reflexivity.
Qed.

(** A run that starts with the field set leaves the field as it is,
    every [getInstance] in it answers with the field, and the only
    objects it constructs are those of its constructor calls. *)
Lemma run_set prog w r :
  VoiceFeedback_instance w = Some r ->
  outside (snd (run prog w)) = outside w /\
  allocated (snd (run prog w)) = allocated w + constructions prog /\
  VoiceFeedback_instance (snd (run prog w)) = Some r /\
  forall r', In (AInstance r') (fst (run prog w)) -> r' = r.
Proof.
  revert w. induction prog as [|a prog IH]; intros w Hset.
  - cbn. split_and!; [reflexivity | lia | exact Hset | intros r' []].
  - destruct (run_cons a prog w) as [-> ->]. rewrite constructions_cons.
    destruct (action_cases a) as [-> | [-> | [Hget Hnew]]].
    + cbn [perform is_new]. rewrite (getInstance_set w r Hset). cbn [fst snd].
      destruct (IH w Hset) as (Ho & Ha & Hf & Hr).
      split_and!; try assumption.
      intros r' [Hhead|Htail]; [congruence | apply Hr; exact Htail].
    + rewrite perform_new. cbn [fst snd is_new].
      destruct (IH {| outside := outside w;
                      allocated := S (allocated w);
                      VoiceFeedback_instance := VoiceFeedback_instance w |} Hset)
        as (Ho & Ha & Hf & Hr).
      cbn [outside allocated] in Ho, Ha.
      split_and!; [exact Ho | lia | exact Hf |].
      intros r' [Hhead|Htail]; [discriminate | apply Hr; exact Htail].
    + destruct (perform_inert a w Hget Hnew) as (-> & Hinst & _).
      destruct (IH w Hset) as (Ho & Ha & Hf & Hr).
      assert (is_new a = false) as -> by (destruct a; try reflexivity; contradiction).
      split_and!; try assumption.
      intros r' [Hhead|Htail]; [destruct (Hinst r' Hhead) | apply Hr; exact Htail].
Qed.

(** Whatever instance a run hands out is the one the field holds at
    the end; and beside the objects of its constructor calls the run
    constructs one object if the field was unset at the start, and none
    if it was set. *)
Lemma run_final prog w r :
  In (AInstance r) (fst (run prog w)) ->
  VoiceFeedback_instance (snd (run prog w)) = Some r /\
  allocated (snd (run prog w)) =
    match VoiceFeedback_instance w with
    | Some _ => allocated w
    | None => S (allocated w)
    end + constructions prog.
Proof.
  revert w. induction prog as [|a prog IH]; intros w Hin; [destruct Hin|].
  destruct (VoiceFeedback_instance w) as [r0|] eqn:Hfield.
  { destruct (run_set (a :: prog) w r0 Hfield) as (_ & Ha & Hf & Hr).
    rewrite (Hr r Hin). split; [exact Hf | exact Ha]. }
  destruct (run_cons a prog w) as [Hfst Hsnd].
  rewrite Hfst in Hin. rewrite Hsnd, constructions_cons. clear Hfst Hsnd.
  destruct (action_cases a) as [-> | [-> | [Hget Hnew]]].
  - cbn [perform is_new] in *. rewrite (getInstance_unset w Hfield) in *.
    cbn [fst snd] in *.
    set (w1 := {| outside := outside w;
                  allocated := S (allocated w);
                  VoiceFeedback_instance := Some (allocated w) |}) in *.
    destruct (run_set prog w1 (allocated w) eq_refl) as (_ & Ha & Hf & Hr).
    assert (r = allocated w) as ->.
    { destruct Hin as [Hhead|Htail]; [congruence | apply Hr; exact Htail]. }
    split; [exact Hf | exact Ha].
  - rewrite perform_new in *. cbn [fst snd is_new] in *.
    set (w1 := {| outside := outside w;
                  allocated := S (allocated w);
                  VoiceFeedback_instance := VoiceFeedback_instance w |}) in *.
    destruct Hin as [Hhead|Htail]; [discriminate|].
    destruct (IH w1 Htail) as [Hf Ha].
    change (VoiceFeedback_instance w1) with (VoiceFeedback_instance w) in Ha.
    change (allocated w1) with (S (allocated w)) in Ha.
    rewrite Hfield in Ha.
    split; [exact Hf | lia].
  - destruct (perform_inert a w Hget Hnew) as (Hw & Hinst & _). rewrite Hw in *.
    assert (is_new a = false) as -> by (destruct a; try reflexivity; contradiction).
    destruct Hin as [Hhead|Htail]; [destruct (Hinst r Hhead)|].
    destruct (IH w Htail) as [Hf Ha]. rewrite Hfield in Ha. split; assumption.
Qed.

(** C8. No operation of the shim does anything: in every world and
    for every argument, [speak] returns a fulfilled promise,
    [stopSpeak] returns, [isTTSEnabled] returns [false], every
    instance method returns, and each of them hands back the world
    it was given. *)
Theorem tts_inert w :
  (forall text, speak text w = (Fulfilled tt, w)) /\
  stopSpeak w = (tt, w) /\
  isTTSEnabled w = (false, w) /\
  (forall self m, invoke self m w = (tt, w)).
Proof.
  split_and!; try reflexivity.
  intros self m. destruct m; reflexivity.
Qed.

(** C10. In one execution, any two calls of [getInstance] return the
    same object. That object sits in the static field when the
    execution ends, and beside the objects that the execution's own
    constructor calls made, the execution has constructed one object if
    the field was unset at its start and none if it was set. *)
Theorem getInstance_singleton prog w r1 r2 :
  In (AInstance r1) (fst (run prog w)) ->
  In (AInstance r2) (fst (run prog w)) ->
  r1 = r2 /\
  VoiceFeedback_instance (snd (run prog w)) = Some r1 /\
  allocated (snd (run prog w)) =
    match VoiceFeedback_instance w with
    | Some _ => allocated w
    | None => S (allocated w)
    end + constructions prog.
Proof.
  intros H1 H2.
  destruct (run_final prog w r1 H1) as [Hf1 Ha].
  destruct (run_final prog w r2 H2) as [Hf2 _].
  split_and!; [congruence | exact Hf1 | exact Ha].
Qed.
End World.

Lemma getInstance_singleton_witness :
  let prog := [CallGetInstance; CallMethod 0 (Speak "hello" (Some high));
               CallGetInstance; CallStopSpeak; CallGetInstance] in
  0 = 0 /\
  VoiceFeedback_instance (snd (run prog (initial tt))) = Some 0 /\
  allocated (snd (run prog (initial tt))) = 1.
Proof.
  intros prog.
  apply (getInstance_singleton prog (initial tt) 0 0).
  - left. reflexivity.
  - right. right. left. reflexivity.
Defined.

End TtsProofs.

(** * Further properties of the navigation guard *)

Module NavigationMore.
Import Eff Navigation NavigationProofs.

(** The five ways through the guard, each with the whole computation. *)
Lemma safeNavigate_cases (global : Global) (p : string) (b : bool) :
  (global = None /\ safeNavigate global p b = ([], Return false)) \/
  (exists w, global = Some w /\ p = pathname (location w) /\
     safeNavigate global p b =
       ([ConsoleLog ("🚫 Same URL navigation skipped: " +:+ p)], Return false)) \/
  (exists w router, global = Some w /\ p <> pathname (location w) /\
     Js.truthy (__NEXT_ROUTER_PRESENT w) = true /\
     __NEXT_ROUTER w = Some router /\
     safeNavigate global p b =
       ([router_event p b],
        match router_outcome router p b with
        | None => Return true
        | Some e => Throw e
        end)) \/
  (exists w, global = Some w /\ p <> pathname (location w) /\
     (Js.truthy (__NEXT_ROUTER_PRESENT w) = false \/ __NEXT_ROUTER w = None) /\
     assign (location w) p = None /\
     safeNavigate global p b = ([LocationAssign p], Return true)) \/
  (exists w e, global = Some w /\ p <> pathname (location w) /\
     (Js.truthy (__NEXT_ROUTER_PRESENT w) = false \/ __NEXT_ROUTER w = None) /\
     assign (location w) p = Some e /\
     safeNavigate global p b =
       ([LocationAssign p; ConsoleWarn "Navigation fallback failed:" e],
        Return false)).
Proof.
  destruct global as [w|]; [|left; split; reflexivity].
  right.
  destruct (String.eqb_spec (pathname (location w)) p) as [Heq|Hne].
  { left. exists w. split_and!; [reflexivity | congruence |].
    apply safeNavigate_skip. congruence. }
  right.
  assert (Hne' : p <> pathname (location w)) by congruence.
  assert (Hfb : Js.truthy (__NEXT_ROUTER_PRESENT w) = false \/ __NEXT_ROUTER w = None ->
    (exists w', Some w = Some w' /\ p <> pathname (location w') /\
       (Js.truthy (__NEXT_ROUTER_PRESENT w') = false \/ __NEXT_ROUTER w' = None) /\
       assign (location w') p = None /\
       safeNavigate (Some w) p b = ([LocationAssign p], Return true)) \/
    (exists w' e, Some w = Some w' /\ p <> pathname (location w') /\
       (Js.truthy (__NEXT_ROUTER_PRESENT w') = false \/ __NEXT_ROUTER w' = None) /\
       assign (location w') p = Some e /\
       safeNavigate (Some w) p b =
         ([LocationAssign p; ConsoleWarn "Navigation fallback failed:" e],
          Return false))).
  { intros Hno. rewrite (safeNavigate_via_fallback w p b Hne' Hno).
    destruct (assign (location w) p) as [e|] eqn:Ha.
    - right. exists w, e. split_and!; try done. apply fallback_assign_throws, Ha.
    - left. exists w. split_and!; try done. apply fallback_assign_ok, Ha. }
  destruct (Js.truthy (__NEXT_ROUTER_PRESENT w)) eqn:Hflag.
  - destruct (__NEXT_ROUTER w) as [router|] eqn:Hrouter.
    + left. exists w, router. split_and!; try done.
      apply safeNavigate_via_router; assumption.
    + right. apply Hfb. right. reflexivity.
  - right. apply Hfb. left. reflexivity.
Qed.

(** A path with something appended is a different path. *)
Lemma append_nonempty_ne (p s : string) : s <> "" -> p +:+ s <> p.
Proof.
  intros Hs. induction p as [|c p IH].
  - exact Hs.
  - intros Heq. apply IH. injection Heq as Heq. exact Heq.
Qed.

(** X1. What [true] tells the caller: a window exists, the target
    differs from the current path, and the guard made exactly one
    navigation call, aimed at the target: either the one router call
    that [useReplace] selects, or one location write; it logged
    nothing. *)
Theorem safeNavigate_true (global : Global) (targetPath : string) (useReplace : bool) :
  result (safeNavigate global targetPath useReplace) = Return true ->
  (exists w, global = Some w /\ targetPath <> pathname (location w)) /\
  (trace (safeNavigate global targetPath useReplace) =
     [router_event targetPath useReplace] \/
   trace (safeNavigate global targetPath useReplace) =
     [LocationAssign targetPath]).
Proof.
  destruct (safeNavigate_cases global targetPath useReplace)
    as [[_ ->] | [(w & _ & _ & ->) | [(w & router & -> & Hne & _ & _ & ->)
       | [(w & -> & Hne & _ & _ & ->) | (w & e & _ & _ & _ & _ & ->)]]]];
    cbn [result trace fst snd]; intros Hres; try discriminate.
  - split; [exists w; auto | left; reflexivity].
  - split; [exists w; auto | right; reflexivity].
Qed.

Lemma safeNavigate_true_witness :
  trace (safeNavigate (Some (window_with (location_at "/") Js.VNull (Some throwing_router)))
                      "/terminal-simple" false) =
    [router_event "/terminal-simple" false] \/
  trace (safeNavigate (Some (window_with (location_at "/") Js.VNull (Some throwing_router)))
                      "/terminal-simple" false) =
    [LocationAssign "/terminal-simple"].
Proof.
  apply (safeNavigate_true
           (Some (window_with (location_at "/") Js.VNull (Some throwing_router)))
           "/terminal-simple" false).
  reflexivity.
Defined.

(** X2. What [false] tells the caller: no router was called, and one of
    three things happened: there is no window and nothing was done; the
    target is the current path and only the skip message was logged; or
    the location write was tried once, threw, and was logged as a
    warning. *)
Theorem safeNavigate_false (global : Global) (targetPath : string) (useReplace : bool) :
  result (safeNavigate global targetPath useReplace) = Return false ->
  count is_router_call (trace (safeNavigate global targetPath useReplace)) = 0 /\
  ((global = None /\ trace (safeNavigate global targetPath useReplace) = []) \/
   (exists w, global = Some w /\ targetPath = pathname (location w) /\
      trace (safeNavigate global targetPath useReplace) =
        [ConsoleLog ("🚫 Same URL navigation skipped: " +:+ targetPath)]) \/
   (exists w e, global = Some w /\ targetPath <> pathname (location w) /\
      assign (location w) targetPath = Some e /\
      trace (safeNavigate global targetPath useReplace) =
        [LocationAssign targetPath; ConsoleWarn "Navigation fallback failed:" e])).
Proof.
  destruct (safeNavigate_cases global targetPath useReplace)
    as [[Hg Hrun] | [(w & Hg & Hsame & Hrun) | [(w & router & _ & _ & _ & _ & Hrun)
       | [(w & _ & _ & _ & _ & Hrun) | (w & e & Hg & Hne & _ & Ha & Hrun)]]]];
    rewrite Hrun; cbn [result trace fst snd]; intros Hres.
  - split; [reflexivity|]. left. split; [exact Hg | reflexivity].
  - split; [reflexivity|]. right. left. exists w. auto.
  - destruct (router_outcome router targetPath useReplace); discriminate.
  - discriminate.
  - split; [reflexivity|]. right. right. exists w, e. auto.
Qed.

Lemma safeNavigate_false_witness :
  count is_router_call
    (trace (safeNavigate (Some (window_with (locked_location_at "/") Js.VNull None))
                         "/terminal-simple" true)) = 0.
Proof.
  apply (safeNavigate_false
           (Some (window_with (locked_location_at "/") Js.VNull None))
           "/terminal-simple" true).
  reflexivity.
Defined.

(** X3. In every environment the guard makes at most one navigation
    call, never a router call and a location write together, and every
    navigation call it makes carries the target path: a router call is
    the one [useReplace] selects, a location write is [assign] of the
    target. Its trace has at most two events. *)
Theorem safeNavigate_navigation_calls (global : Global) (targetPath : string)
    (useReplace : bool) :
  count is_router_call (trace (safeNavigate global targetPath useReplace)) +
  count is_location_write (trace (safeNavigate global targetPath useReplace)) <= 1 /\
  length (trace (safeNavigate global targetPath useReplace)) <= 2 /\
  (forall ev, In ev (trace (safeNavigate global targetPath useReplace)) ->
     (is_router_call ev = true -> ev = router_event targetPath useReplace) /\
     (is_location_write ev = true -> ev = LocationAssign targetPath)).
Proof.
  destruct (safeNavigate_cases global targetPath useReplace)
    as [[_ ->] | [(w & _ & _ & ->) | [(w & router & _ & _ & _ & _ & ->)
       | [(w & _ & _ & _ & _ & ->) | (w & e & _ & _ & _ & _ & ->)]]]];
    cbn [trace fst].
  - split_and!; [cbn; lia | cbn; lia | intros ev []].
  - split_and!; [cbn; lia | cbn; lia |].
    intros ev [<-|[]]. split; discriminate.
  - split_and!; [destruct useReplace; cbn; lia | cbn; lia |].
    intros ev [<-|[]]. split; [reflexivity | destruct useReplace; discriminate].
  - split_and!; [cbn; lia | cbn; lia |].
    intros ev [<-|[]]. split; [discriminate | reflexivity].
  - split_and!; [cbn; lia | cbn; lia |].
    intros ev [<-|[<-|[]]]; split; (discriminate || reflexivity).
Qed.

(** X4. [useReplace] matters only when the router is reached: with no
    window, or the target equal to the current path, or a falsy flag, or
    no handle, the guard does the same with [true] as with [false]. *)
Theorem safeNavigate_useReplace_irrelevant (global : Global) (targetPath : string) :
  (forall w, global = Some w ->
     targetPath = pathname (location w) \/
     Js.truthy (__NEXT_ROUTER_PRESENT w) = false \/
     __NEXT_ROUTER w = None) ->
  safeNavigate global targetPath true = safeNavigate global targetPath false.
Proof.
  intros Hno. destruct global as [w|]; [|reflexivity].
  destruct (Hno w eq_refl) as [Hsame | Hrouter].
  - rewrite !(safeNavigate_skip w targetPath _ Hsame). reflexivity.
  - destruct (String.eqb_spec (pathname (location w)) targetPath) as [Heq|Hne].
    + rewrite !(safeNavigate_skip w targetPath _ (eq_sym Heq)). reflexivity.
    + rewrite !safeNavigate_via_fallback by (assumption || congruence). reflexivity.
Qed.

Lemma safeNavigate_useReplace_irrelevant_witness :
  safeNavigate (Some (window_with (location_at "/") (Js.VString "") (Some throwing_router)))
               "/terminal-simple" true =
  safeNavigate (Some (window_with (location_at "/") (Js.VString "") (Some throwing_router)))
               "/terminal-simple" false.
Proof.
  apply (safeNavigate_useReplace_irrelevant
           (Some (window_with (location_at "/") (Js.VString "") (Some throwing_router)))
           "/terminal-simple").
  intros w Hw. injection Hw as <-. right. left. reflexivity.
Defined.

(** X5. The comparison of paths is exact: a target that is the current
    path with anything appended (a trailing slash, a query string) is not
    skipped; the guard makes exactly one navigation call for it and logs
    no skip message. *)
Theorem safeNavigate_no_normalisation (w : Window) (suffix : string) (useReplace : bool) :
  suffix <> "" ->
  count is_router_call
    (trace (safeNavigate (Some w) (pathname (location w) +:+ suffix) useReplace)) +
  count is_location_write
    (trace (safeNavigate (Some w) (pathname (location w) +:+ suffix) useReplace)) = 1 /\
  ~ In (ConsoleLog ("🚫 Same URL navigation skipped: "
                    +:+ (pathname (location w) +:+ suffix)))
       (trace (safeNavigate (Some w) (pathname (location w) +:+ suffix) useReplace)).
Proof.
  intros Hs.
  pose proof (append_nonempty_ne (pathname (location w)) suffix Hs) as Hne.
  destruct (safeNavigate_cases (Some w) (pathname (location w) +:+ suffix) useReplace)
    as [[Hg _] | [(w' & Hg & Hsame & _) | [(w' & router & _ & _ & _ & _ & ->)
       | [(w' & _ & _ & _ & _ & ->) | (w' & e & _ & _ & _ & _ & ->)]]]];
    cbn [trace fst].
  - discriminate.
  - injection Hg as <-. contradiction.
  - split; [destruct useReplace; reflexivity|].
    intros [Hev|[]]. destruct useReplace; discriminate.
  - split; [reflexivity|]. intros [Hev|[]]. discriminate.
  - split; [reflexivity|]. intros [Hev|[Hev|[]]]; discriminate.
Qed.

Lemma safeNavigate_no_normalisation_witness :
  count is_router_call
    (trace (safeNavigate (Some (window_with (location_at "/terminal-simple")
                                            (Js.VBool true) (Some quiet_router)))
                         "/terminal-simple/" true)) +
  count is_location_write
    (trace (safeNavigate (Some (window_with (location_at "/terminal-simple")
                                            (Js.VBool true) (Some quiet_router)))
                         "/terminal-simple/" true)) = 1.
Proof.
  apply (safeNavigate_no_normalisation
           (window_with (location_at "/terminal-simple") (Js.VBool true)
                        (Some quiet_router))
           "/" true).
  discriminate.
Defined.

End NavigationMore.

(** * Further properties of the security-header middleware *)

Module MiddlewareMore.
Import Middleware MiddlewareProofs.

Lemma lower_frame_options : lower "X-Frame-Options" = "x-frame-options".
Proof. reflexivity. Qed.

Lemma lower_content_type_options :
  lower "X-Content-Type-Options" = "x-content-type-options".
Proof. reflexivity. Qed.

(** The header map the middleware builds outside development. *)
Lemma middleware_production_headers (next : Response) (env : ProcessEnv)
    (request : NextRequest) :
  NODE_ENV env <> Some "development" ->
  headers (middleware next env request) =
    <["x-content-type-options" := "nosniff"]>
      (<["x-frame-options" := "SAMEORIGIN"]> (headers next)).
Proof.
  intros Hprod. rewrite (middleware_production next env request Hprod).
  cbn [headers set_header]. unfold headers_set.
  rewrite lower_frame_options, lower_content_type_options. reflexivity.
Qed.

Lemma response_eq (r1 r2 : Response) :
  status r1 = status r2 -> headers r1 = headers r2 -> r1 = r2.
Proof.
  destruct r1, r2. cbn. intros -> ->. reflexivity.
Qed.

Lemma middleware_status (next : Response) (env : ProcessEnv) (request : NextRequest) :
  status (middleware next env request) = status next.
Proof.
  unfold middleware. destruct (is_development env); reflexivity.
Qed.

Lemma development_or_not (env : ProcessEnv) :
  NODE_ENV env = Some "development" \/ NODE_ENV env <> Some "development".
Proof.
  destruct (decide (NODE_ENV env = Some "development")); auto.
Qed.

(** X6. Running the middleware on its own result changes nothing,
    whatever the two requests are: the headers it sets are set to the
    same values again, and the request plays no part in the result. *)
Theorem middleware_idempotent (next : Response) (env : ProcessEnv)
    (request1 request2 : NextRequest) :
  middleware (middleware next env request1) env request2 =
  middleware next env request1.
Proof.
  destruct (development_or_not env) as [Hdev|Hprod].
  - unfold middleware. rewrite (is_development_true _ Hdev). reflexivity.
  - apply response_eq.
    + rewrite !middleware_status. reflexivity.
    + rewrite (middleware_production_headers _ env request2 Hprod).
      rewrite (middleware_production_headers next env request1 Hprod).
      rewrite (insert_insert_ne _ "x-frame-options" "x-content-type-options")
        by discriminate.
      rewrite !insert_insert_eq. reflexivity.
Qed.

(** X7. The middleware removes no header and adds at most two: the
    number of headers of its result lies between that of the response it
    was given and that number plus two. *)
Theorem middleware_header_count (next : Response) (env : ProcessEnv)
    (request : NextRequest) :
  size (headers next) <= size (headers (middleware next env request)) /\
  size (headers (middleware next env request)) <= size (headers next) + 2.
Proof.
  destruct (development_or_not env) as [Hdev|Hprod].
  - unfold middleware. rewrite (is_development_true _ Hdev). lia.
  - rewrite (middleware_production_headers next env request Hprod).
    rewrite !map_size_insert.
    destruct (_ !! "x-content-type-options"), (_ !! "x-frame-options");
      unfold id; lia.
Qed.

(** X8. Outside development the middleware has the last word on its two
    headers: a value that the incoming response already carries for
    either of them, under any spelling of the name's case, is replaced
    and leaves no mark on the result. *)
Theorem middleware_overrides_upstream (next : Response) (env : ProcessEnv)
    (request : NextRequest) (name value : string) :
  NODE_ENV env <> Some "development" ->
  lower name = "x-frame-options" \/ lower name = "x-content-type-options" ->
  middleware (set_header name value next) env request =
  middleware next env request.
Proof.
  intros Hprod Hname. apply response_eq.
  - rewrite !middleware_status. reflexivity.
  - rewrite !(middleware_production_headers _ env request Hprod).
    cbn [headers set_header]. unfold headers_set.
    destruct Hname as [-> | ->].
    + rewrite insert_insert_eq. reflexivity.
    + rewrite (insert_insert_ne _ "x-frame-options" "x-content-type-options")
        by discriminate.
      rewrite insert_insert_eq. reflexivity.
Qed.

Lemma middleware_overrides_upstream_witness :
  middleware (set_header "X-FRAME-OPTIONS" "DENY" sample_next) production
             {| nextUrl_pathname := "/" |} =
  middleware sample_next production {| nextUrl_pathname := "/" |}.
Proof.
  apply (middleware_overrides_upstream sample_next production
           {| nextUrl_pathname := "/" |} "X-FRAME-OPTIONS" "DENY").
  - discriminate.
  - left. reflexivity.
Defined.

(** X9. The matcher leaves out every path that begins with [/_next/static],
    [/_next/image] or [/public], whatever follows, so also a page such as
    [/publications]; and since the dot of [favicon.ico] stands for any
    character, every path that begins with [/favicon], one character and
    [ico]. *)
Theorem matcher_excluded_prefixes (rest : list code_unit) :
  matcher (utf16 "/_next/static" ++ rest) = false /\
  matcher (utf16 "/_next/image" ++ rest) = false /\
  matcher (utf16 "/public" ++ rest) = false /\
  (forall c, matcher (utf16 "/favicon" ++ c :: utf16 "ico" ++ rest) = false).
Proof.
  assert (Hlit : forall alt tail,
            In alt lookahead_alternatives ->
            matcher ((slash :: alt) ++ tail) = false).
  { intros alt tail Hin. cbn [app matcher]. rewrite N.eqb_refl. cbn [andb].
    apply andb_false_iff. left. apply negb_false_iff, existsb_exists.
    exists alt. split; [exact Hin | apply begins_with_self]. }
  assert (Hstatic : utf16 "/_next/static" = slash :: utf16 "_next/static")
    by (vm_compute; reflexivity).
  assert (Himage : utf16 "/_next/image" = slash :: utf16 "_next/image")
    by (vm_compute; reflexivity).
  assert (Hpublic : utf16 "/public" = slash :: utf16 "public")
    by (vm_compute; reflexivity).
  assert (Hfavicon : utf16 "/favicon" = slash :: utf16 "favicon")
    by (vm_compute; reflexivity).
  split_and!.
  - rewrite Hstatic.
    apply (Hlit (utf16 "_next/static") rest). vm_compute. left. reflexivity.
  - rewrite Himage.
    apply (Hlit (utf16 "_next/image") rest). vm_compute. right. left. reflexivity.
  - rewrite Hpublic.
    apply (Hlit (utf16 "public") rest).
    vm_compute. right. right. right. left. reflexivity.
  - intros c. rewrite Hfavicon.
    cbn [app matcher]. rewrite N.eqb_refl. cbn [andb].
    destruct (is_line_terminator c) eqn:Hc.
    + apply andb_false_iff. right.
      rewrite forallb_app. cbn [forallb]. rewrite Hc. cbn [negb andb].
      apply andb_false_r.
    + apply andb_false_iff. left. apply negb_false_iff, existsb_exists.
      exists (utf16 "favicon.ico").
      split; [vm_compute; right; right; left; reflexivity|].
      apply (proj2 (begins_with_favicon_iff _)).
      exists c, rest. split; [exact Hc | reflexivity].
Qed.

(** X10. The matcher accepts the root path, and every path that holds no
    line terminator and whose first character after the slash is none of
    [_], [f] and [p]. *)
Theorem matcher_accepts_by_first_character (c : code_unit) (rest : list code_unit) :
  [c] <> utf16 "_" -> [c] <> utf16 "f" -> [c] <> utf16 "p" ->
  (forall u, In u (c :: rest) -> is_line_terminator u = false) ->
  matcher (utf16 "/") = true /\ matcher (slash :: c :: rest) = true.
Proof.
  intros Hu Hf Hp Hterm. split; [reflexivity|].
  apply (proj2 (matcher_accepts (slash :: c :: rest))). exists (c :: rest).
  split_and!; [reflexivity | exact Hterm | | | |].
  - intros tail Heq. apply Hu. vm_compute in Heq. injection Heq as -> _. reflexivity.
  - intros tail Heq. apply Hu. vm_compute in Heq. injection Heq as -> _. reflexivity.
  - intros tail Heq. apply Hp. vm_compute in Heq. injection Heq as -> _. reflexivity.
  - intros c' tail Heq. apply Hf. vm_compute in Heq. injection Heq as -> _. reflexivity.
Qed.

Lemma matcher_accepts_by_first_character_witness :
  matcher (utf16 "/") = true /\
  matcher (slash :: 116%N :: utf16 "erminal-simple") = true.
Proof.
  apply (matcher_accepts_by_first_character 116%N (utf16 "erminal-simple")).
  - intros H. vm_compute in H. discriminate H.
  - intros H. vm_compute in H. discriminate H.
  - intros H. vm_compute in H. discriminate H.
  - intros u Hin. vm_compute in Hin.
    repeat (destruct Hin as [<-|Hin]; [reflexivity|]). destruct Hin.
Defined.

End MiddlewareMore.

(** * Further properties of the text-to-speech shim *)

Module TtsMore.
Import Tts TtsProofs.

Section World.
Context {Outside : Type}.
Implicit Types (w : World Outside) (prog : list action) (r : ref).

Lemma world_eq w (w' : World Outside) :
  outside w' = outside w ->
  allocated w' = allocated w ->
  VoiceFeedback_instance w' = VoiceFeedback_instance w ->
  w' = w.
Proof.
  destruct w, w'. cbn. intros -> -> ->. reflexivity.
Qed.

Lemma constructions_none prog :
  ~ In CallNew prog -> constructions prog = 0.
Proof.
  induction prog as [|a prog IH]; intros Hnot; [reflexivity|].
  rewrite constructions_cons.
  destruct a; cbn [is_new];
    try (apply IH; intros Hin; apply Hnot; right; exact Hin).
  destruct Hnot. left. reflexivity.
Qed.

(** X12. Calls other than [getInstance] never touch the singleton: an
    execution without [getInstance] hands out no instance and leaves the
    static field as it was, and the objects constructed in it are those
    of its constructor calls. If it has no constructor call either, it
    ends in the very world it started in. *)
Theorem run_without_getInstance prog w :
  ~ In CallGetInstance prog ->
  (forall r, ~ In (AInstance r) (fst (run prog w))) /\
  VoiceFeedback_instance (snd (run prog w)) = VoiceFeedback_instance w /\
  outside (snd (run prog w)) = outside w /\
  allocated (snd (run prog w)) = allocated w + constructions prog /\
  (~ In CallNew prog -> snd (run prog w) = w).
Proof.
  intros Hnot.
  assert (Hmain :
    (forall r, ~ In (AInstance r) (fst (run prog w))) /\
    VoiceFeedback_instance (snd (run prog w)) = VoiceFeedback_instance w /\
    outside (snd (run prog w)) = outside w /\
    allocated (snd (run prog w)) = allocated w + constructions prog).
  { revert w. induction prog as [|a prog IH]; intros w.
    - cbn. split_and!; [intros r [] | reflexivity | reflexivity | lia].
    - assert (Hrest : ~ In CallGetInstance prog)
        by (intros Hin; apply Hnot; right; exact Hin).
      destruct (run_cons a prog w) as [-> ->]. rewrite constructions_cons.
      destruct (action_cases a) as [-> | [-> | [Hget Hnew]]].
      + destruct Hnot. left. reflexivity.
      + rewrite perform_new. cbn [fst snd is_new].
        set (w1 := {| outside := outside w;
                      allocated := S (allocated w);
                      VoiceFeedback_instance := VoiceFeedback_instance w |}).
        destruct (IH Hrest w1) as (Hr & Hf & Ho & Ha).
        change (allocated w1) with (S (allocated w)) in Ha.
        split_and!; [| exact Hf | exact Ho | lia].
        intros r [Hhead|Htail]; [discriminate | exact (Hr r Htail)].
      + destruct (perform_inert a w Hget Hnew) as (-> & Hinst & _).
        assert (is_new a = false) as ->
          by (destruct a; try reflexivity; contradiction).
        destruct (IH Hrest w) as (Hr & Hf & Ho & Ha).
        split_and!; try assumption.
        intros r [Hhead|Htail]; [exact (Hinst r Hhead) | exact (Hr r Htail)]. }
  destruct Hmain as (Hr & Hf & Ho & Ha).
  split_and!; try assumption.
  intros Hnew. apply world_eq; try assumption.
  rewrite Ha, (constructions_none prog Hnew). lia.
Qed.

(** Where a run leaves the field and the count of objects, and which
    objects its constructor calls hand out. *)
Lemma run_invariant prog w :
  (forall r, VoiceFeedback_instance w = Some r -> r < allocated w) ->
  (forall r, VoiceFeedback_instance (snd (run prog w)) = Some r ->
             r < allocated (snd (run prog w))) /\
  ((VoiceFeedback_instance (snd (run prog w)) = VoiceFeedback_instance w /\
    allocated (snd (run prog w)) = allocated w + constructions prog) \/
   (VoiceFeedback_instance w = None /\
    exists r, VoiceFeedback_instance (snd (run prog w)) = Some r /\
              allocated w <= r /\
              allocated (snd (run prog w)) = S (allocated w + constructions prog))) /\
  (forall r, In (AObject r) (fst (run prog w)) ->
             allocated w <= r /\ r < allocated (snd (run prog w)) /\
             VoiceFeedback_instance (snd (run prog w)) <> Some r).
Proof.
  revert w. induction prog as [|a prog IH]; intros w Hvalid.
  - cbn. split_and!; [exact Hvalid | left; split; [reflexivity | lia] | intros r []].
  - destruct (run_cons a prog w) as [-> ->]. rewrite constructions_cons.
    destruct (action_cases a) as [-> | [-> | [Hget Hnew]]].
    + cbn [perform is_new].
      destruct (VoiceFeedback_instance w) as [r0|] eqn:Hfield.
      * rewrite (getInstance_set w r0 Hfield). cbn [fst snd].
        destruct (IH w) as (Hv & Hb & Hc); [rewrite Hfield; exact Hvalid|].
        rewrite Hfield in Hb.
        split_and!; [exact Hv | exact Hb |].
        intros r [Hhead|Htail]; [discriminate | exact (Hc r Htail)].
      * rewrite (getInstance_unset w Hfield). cbn [fst snd].
        set (w1 := {| outside := outside w;
                      allocated := S (allocated w);
                      VoiceFeedback_instance := Some (allocated w) |}).
        destruct (IH w1) as (Hv & Hb & Hc).
        { intros r Hr. injection Hr as <-. cbn. lia. }
        change (VoiceFeedback_instance w1) with (Some (allocated w)) in Hb.
        change (allocated w1) with (S (allocated w)) in Hb, Hc.
        split_and!; [exact Hv | |].
        -- right. split; [reflexivity|].
           destruct Hb as [[Hf Ha] | [Hf _]]; [|discriminate Hf].
           exists (allocated w). split_and!; [exact Hf | lia | lia].
        -- intros r [Hhead|Htail]; [discriminate|].
           destruct (Hc r Htail) as (Hlo & Hhi & Hne). split_and!; [lia | lia | exact Hne].
    + rewrite perform_new. cbn [fst snd is_new].
      set (w1 := {| outside := outside w;
                    allocated := S (allocated w);
                    VoiceFeedback_instance := VoiceFeedback_instance w |}).
      destruct (IH w1) as (Hv & Hb & Hc).
      { intros r Hr. apply Hvalid in Hr. cbn. lia. }
      change (VoiceFeedback_instance w1) with (VoiceFeedback_instance w) in Hb.
      change (allocated w1) with (S (allocated w)) in Hb, Hc.
      split_and!; [exact Hv | |].
      * destruct Hb as [[Hf Ha] | (Hf & r & Hr & Hlo & Ha)].
        -- left. split; [exact Hf | lia].
        -- right. split; [exact Hf|]. exists r. split_and!; [exact Hr | lia | lia].
      * intros r [Hhead|Htail].
        -- injection Hhead as <-.
           destruct Hb as [[Hf Ha] | (Hf & r & Hr & Hlo & Ha)].
           ++ split_and!; [lia | lia |].
              rewrite Hf. intros Hs. apply Hvalid in Hs. lia.
           ++ split_and!; [lia | lia |].
              rewrite Hr. intros Hs. injection Hs as ->. lia.
        -- destruct (Hc r Htail) as (Hlo & Hhi & Hne). split_and!; [lia | lia | exact Hne].
    + destruct (perform_inert a w Hget Hnew) as (-> & _ & Hobj).
      assert (is_new a = false) as ->
        by (destruct a; try reflexivity; contradiction).
      destruct (IH w Hvalid) as (Hv & Hb & Hc).
      split_and!; [exact Hv | exact Hb |].
      intros r [Hhead|Htail]; [destruct (Hobj r Hhead) | exact (Hc r Htail)].
Qed.

(** X13. The static field only ever holds a constructed object. If that
    is so when an execution starts, it is so when it ends, and every
    instance the execution hands out is a constructed object. An object
    that a constructor call of the execution hands out is new, and is
    never the singleton. Beside the objects of its constructor calls the
    execution constructs at most one object. And when the field was
    unset at the start, an instance handed out is an object constructed
    in the execution, none of those that existed before. *)
Theorem run_keeps_field_valid prog w :
  (forall r, VoiceFeedback_instance w = Some r -> r < allocated w) ->
  (forall r, VoiceFeedback_instance (snd (run prog w)) = Some r ->
             r < allocated (snd (run prog w))) /\
  (forall r, In (AInstance r) (fst (run prog w)) ->
             r < allocated (snd (run prog w))) /\
  (forall r, In (AObject r) (fst (run prog w)) ->
             allocated w <= r /\ r < allocated (snd (run prog w)) /\
             ~ In (AInstance r) (fst (run prog w))) /\
  allocated w + constructions prog <= allocated (snd (run prog w)) /\
  allocated (snd (run prog w)) <= S (allocated w + constructions prog) /\
  (VoiceFeedback_instance w = None ->
   forall r, In (AInstance r) (fst (run prog w)) -> allocated w <= r).
Proof.
  intros Hvalid.
  destruct (run_invariant prog w Hvalid) as (Hv & Hb & Hc).
  split_and!.
  - exact Hv.
  - intros r Hin. apply Hv. apply (run_final prog w r Hin).
  - intros r Hin. destruct (Hc r Hin) as (Hlo & Hhi & Hne).
    split_and!; [exact Hlo | exact Hhi |].
    intros Hinst. apply Hne. apply (run_final prog w r Hinst).
  - destruct Hb as [[_ Ha] | (_ & r & _ & _ & Ha)]; lia.
  - destruct Hb as [[_ Ha] | (_ & r & _ & _ & Ha)]; lia.
  - intros Hunset r Hin.
    destruct (run_final prog w r Hin) as [Hf _].
    destruct Hb as [[Hf' _] | (_ & r' & Hr' & Hlo & _)]; [congruence|].
    assert (r = r') as -> by congruence. exact Hlo.
Qed.

(** X14. The shim never reports speech as enabled: in every execution,
    whatever has been called before (also [setEnabled] with [true]), no
    call of [isTTSEnabled] answers [true]; and every call is answered. *)
Theorem run_never_enabled prog w :
  ~ In (ABool true) (fst (run prog w)) /\
  length (fst (run prog w)) = length prog.
Proof.
  revert w. induction prog as [|a prog IH]; intros w.
  - split; [intros [] | reflexivity].
  - destruct (run_cons a prog w) as [-> _].
    destruct (IH (snd (perform a w))) as [Hnot Hlen].
    split.
    + intros [Hhead|Htail]; [|exact (Hnot Htail)].
      destruct a as [text| | | |self m|]; cbn in Hhead; try discriminate.
      * destruct (getInstance w). discriminate.
      * destruct (invoke self m w). discriminate.
    + cbn [length]. rewrite Hlen. reflexivity.
Qed.
End World.

Lemma run_without_getInstance_witness :
  snd (run [CallMethod 7 (SetEnabled true); CallIsTTSEnabled; CallSpeak "hello"]
           (initial tt)) = initial tt.
Proof.
  apply (run_without_getInstance
           [CallMethod 7 (SetEnabled true); CallIsTTSEnabled; CallSpeak "hello"]
           (initial tt)).
  - intros [H|[H|[H|[]]]]; discriminate H.
  - intros [H|[H|[H|[]]]]; discriminate H.
Defined.

Lemma run_keeps_field_valid_witness :
  allocated (snd (run [CallNew; CallGetInstance; CallNew; CallGetInstance]
                      (initial tt)))
  <= S (allocated (initial tt)
        + constructions [CallNew; CallGetInstance; CallNew; CallGetInstance]).
Proof.
  apply (run_keeps_field_valid [CallNew; CallGetInstance; CallNew; CallGetInstance]
           (initial tt)).
  intros r Hr. discriminate Hr.
Defined.

End TtsMore.

(** * Properties of the development-server launcher *)

Module LauncherProofs.
Import Launcher.

(** A process that has exited executes no statement. *)
Lemma execute_exited (s : process) (statements : list effect) :
  state s <> Running -> execute s statements = s.
Proof.
  intros Hdead. induction statements as [|e statements IH]; [reflexivity|].
  cbn [execute fold_left]. fold (execute (perform s e) statements).
  assert (perform s e = s) as ->; [|exact IH].
  unfold perform. destruct (state s); [contradiction | reflexivity].
Qed.

(** Every listener runs to its [process.exit]: from a running process it
    performs all its statements and exits with the code of the event. *)
Lemma deliver_running (s : process) (i : incoming) :
  state s = Running ->
  deliver s i = {| state := Exited (exit_code i); log := log s ++ handler i |}.
Proof.
  destruct s as [st l]. cbn [state log]. intros ->.
  destruct i as [[|]|code|error]; cbn;
    rewrite <- ?app_assoc; reflexivity.
Qed.

Lemma deliver_exited (s : process) (i : incoming) :
  state s <> Running -> deliver s i = s.
Proof.
  apply execute_exited.
Qed.

Lemma deliver_all_exited (s : process) (events : list incoming) :
  state s <> Running -> fold_left deliver events s = s.
Proof.
  intros Hdead. induction events as [|i events IH]; [reflexivity|].
  cbn [fold_left]. rewrite (deliver_exited s i Hdead). exact IH.
Qed.

Lemma started_running (project : string) (process_env : gmap string string) :
  started project process_env =
    {| state := Running; log := startup project process_env |}.
Proof.
  reflexivity.
Qed.

Lemma launcher_run_cons (project : string) (process_env : gmap string string)
    (i : incoming) (rest : list incoming) :
  run project process_env (i :: rest) =
    {| state := Exited (exit_code i);
       log := startup project process_env ++ handler i |}.
Proof.
  unfold run. cbn [fold_left].
  rewrite (deliver_running (started project process_env) i) by reflexivity.
  rewrite deliver_all_exited by discriminate. reflexivity.
Qed.

(** The three forced entries, and the inherited ones. *)
Lemma child_env_lookup (process_env : gmap string string) :
  child_env process_env !! "NODE_OPTIONS" = Some "--max_old_space_size=4096" /\
  child_env process_env !! "NEXT_TELEMETRY_DISABLED" = Some "1" /\
  child_env process_env !! "FORCE_COLOR" = Some "1" /\
  (forall name : string,
     name <> "NODE_OPTIONS" ->
     name <> "NEXT_TELEMETRY_DISABLED" ->
     name <> "FORCE_COLOR" ->
     child_env process_env !! name = process_env !! name).
Proof.
  unfold child_env. split_and!.
  - rewrite !lookup_insert_ne by discriminate. apply lookup_insert_eq.
  - rewrite lookup_insert_ne by discriminate. apply lookup_insert_eq.
  - apply lookup_insert_eq.
  - intros name Hn Ht Hf. rewrite !lookup_insert_ne by congruence. reflexivity.
Qed.

(** The log of a run: the start-up statements, then the statements of
    the listener of the first event, if any event came. *)
Lemma launcher_log (project : string) (process_env : gmap string string)
    (events : list incoming) :
  log (run project process_env events) =
    startup project process_env ++
    match events with
    | [] => []
    | i :: _ => handler i
    end.
Proof.
  destruct events as [|i rest].
  - reflexivity.
  - rewrite launcher_run_cons. reflexivity.
Qed.

Lemma handler_spawns_nothing (i : incoming) (e : effect) :
  In e (handler i) -> is_spawn e = false.
Proof.
  destruct i as [[|]|code|error]; cbn;
    intros Hin; repeat (destruct Hin as [<-|Hin]; [reflexivity|]); destruct Hin.
Qed.

(** X15. Whatever events reach the launcher, it spawns exactly one
    process: [npx next dev -p 3035 --hostname 0.0.0.0], through a shell,
    on the launcher's own standard streams. In the environment it hands
    to that process, [NODE_OPTIONS], [NEXT_TELEMETRY_DISABLED] and
    [FORCE_COLOR] have their fixed values whatever the launcher inherited
    under those names, and every other variable is the launcher's own. *)
Theorem launcher_spawn_environment (project : string)
    (process_env : gmap string string) (events : list incoming) :
  length (List.filter is_spawn (log (run project process_env events))) = 1 /\
  forall command arguments options,
    In (Spawn command arguments options) (log (run project process_env events)) ->
    command = "npx" /\
    arguments = ["next"; "dev"; "-p"; "3035"; "--hostname"; "0.0.0.0"] /\
    shell options = true /\
    stdio options = "inherit" /\
    env options !! "NODE_OPTIONS" = Some "--max_old_space_size=4096" /\
    env options !! "NEXT_TELEMETRY_DISABLED" = Some "1" /\
    env options !! "FORCE_COLOR" = Some "1" /\
    (forall name : string,
       name <> "NODE_OPTIONS" ->
       name <> "NEXT_TELEMETRY_DISABLED" ->
       name <> "FORCE_COLOR" ->
       env options !! name = process_env !! name).
Proof.
  rewrite launcher_log. split.
  - rewrite List.filter_app, length_app.
    assert (List.filter is_spawn
              match events with
              | [] => []
              | i :: _ => handler i
              end = []) as ->; [|reflexivity].
    destruct events as [|[[|]|code|error] rest]; reflexivity.
  - intros command arguments options Hin.
    apply in_app_or in Hin as [Hin|Hin].
    + cbn in Hin. destruct Hin as [H|[H|[H|[]]]]; try discriminate H.
      injection H as <- <- <-. cbn [shell stdio env].
      destruct (child_env_lookup process_env) as (Hn & Ht & Hf & Hother).
      split_and!; try reflexivity; assumption.
    + destruct events as [|i rest]; [destruct Hin|].
      apply handler_spawns_nothing in Hin. discriminate Hin.
Qed.

(** X16. The first event decides everything. Whatever events follow it,
    the launcher has done its start-up statements and then the statements
    of the listener of the first event, and has exited with the code of
    that event: [0] for a signal, the child's own code for [close], [1]
    for [error]. So after a signal the child's later [close] is neither
    logged nor reflected in the exit code. *)
Theorem launcher_first_event_decides (project : string)
    (process_env : gmap string string) (i : incoming) (rest : list incoming) :
  run project process_env (i :: rest) = run project process_env [i] /\
  state (run project process_env (i :: rest)) = Exited (exit_code i) /\
  log (run project process_env (i :: rest)) =
    startup project process_env ++ handler i.
Proof.
  rewrite !launcher_run_cons. split_and!; reflexivity.
Qed.

(** X17. Over any sequence of events: the launcher is still running
    exactly when no event has arrived; it calls [process.exit] at most
    once and signals the child at most once; and it sends the child a
    signal exactly when that signal was the first event to reach the
    launcher itself. *)
Theorem launcher_exit_and_kill (project : string)
    (process_env : gmap string string) (events : list incoming) :
  (state (run project process_env events) = Running <-> events = []) /\
  length (List.filter is_exit (log (run project process_env events))) <= 1 /\
  length (List.filter is_kill (log (run project process_env events))) <= 1 /\
  (forall s, In (ChildKill s) (log (run project process_env events)) <->
             exists rest, events = Signal s :: rest).
Proof.
  destruct events as [|i rest].
  - split_and!.
    + split; reflexivity.
    + cbn. lia.
    + cbn. lia.
    + intros s. split.
      * cbn. intros [H|[H|[H|[]]]]; discriminate H.
      * intros [rest' H]. discriminate H.
  - rewrite launcher_run_cons. cbn [state log]. split_and!.
    + split; discriminate.
    + destruct i as [[|]|code|error]; cbn; lia.
    + destruct i as [[|]|code|error]; cbn; lia.
    + intros s. split.
      * intros Hin. apply in_app_or in Hin as [Hin|Hin].
        { cbn in Hin. destruct Hin as [H|[H|[H|[]]]]; discriminate H. }
        destruct i as [[|]|code|error]; cbn in Hin;
          repeat (destruct Hin as [Hin|Hin]; try discriminate Hin);
          try contradiction;
          injection Hin as <-; exists rest; reflexivity.
      * intros [rest' Hev]. injection Hev as -> _.
        apply in_or_app. right. destruct s; cbn; auto.
Qed.

End LauncherProofs.
